(** * Language-server lifecycle manager: a shallow embedding

    The development follows the TypeScript sources of the server manager
    ([ServerManager]) and of the protocol connection
    ([LanguageClientConnection]).  Asynchronous methods are cut at their
    [await]s into synchronous segments; the segments run atomically on the
    single JavaScript thread and are interleaved by the events of the run
    loop.  Everything the manager calls but does not own (the start function,
    the logger, connections, processes, timers, the editor's subscriptions) is
    kept in an explicit [World] together with the log of the calls made. *)

From stdpp Require Import gmap strings list fin_maps.
From Stdlib Require Import ZArith Ascii.

(** ** JavaScript string primitives used by the sources *)

Module js.

(** [s.startsWith(d)] *)
Definition startsWith (s d : string) : bool := String.prefix d s.

(** [s.endsWith(d)]: the last [d.length] code units of [s] are [d]. *)
Definition endsWith (s d : string) : bool :=
  let n := String.length s in
  let k := String.length d in
  if (k <=? n)%nat then String.eqb (String.substring (n - k) k s) d else false.

(** [s.charCodeAt(i)], [None] standing for [NaN]. *)
Definition charCodeAt (s : string) (i : Z) : option ascii :=
  if (i <? 0)%Z then None else String.get (Z.to_nat i) s.

Definition len (s : string) : Z := Z.of_nat (String.length s).

(** [s.slice(a, b)] for [0 <= a <= b]. *)
Definition slice (s : string) (a b : Z) : string :=
  String.substring (Z.to_nat a) (Z.to_nat (b - a)) s.

(** [s.lastIndexOf(c)] for a one-character [c]; [-1] when absent. *)
Fixpoint lastIndexOf_from (s : string) (c : ascii) (i : Z) (found : Z) : Z :=
  match s with
  | EmptyString => found
  | String a s' =>
      lastIndexOf_from s' c (i + 1) (if Ascii.eqb a c then i else found)
  end.

Definition lastIndexOf (s : string) (c : ascii) : Z :=
  lastIndexOf_from s c 0 (-1).

(** Array [indexOf] with strict equality; [None] stands for [-1]. *)
Fixpoint indexOf {A} `{EqDecision A} (l : list A) (x : A) : option nat :=
  match l with
  | [] => None
  | y :: l' => if decide (y = x) then Some 0%nat else S <$> indexOf l' x
  end.

(** [l.splice(l.indexOf(x), 1)].  When [x] is absent the index is [-1],
    and [splice(-1, 1)] removes the last element of the array. *)
Definition splice_indexOf {A} `{EqDecision A} (l : list A) (x : A) : list A :=
  match indexOf l x with
  | Some i => delete i l
  | None => removelast l
  end.

(** Removal of the first occurrence of [x], nothing when it is absent. *)
Definition splice_present {A} `{EqDecision A} (l : list A) (x : A) : list A :=
  match indexOf l x with
  | Some i => delete i l
  | None => l
  end.

End js.

(** ** Node's [path] module on a POSIX platform *)

Module path.

Definition sep : string := "/".

Definition CHAR_FORWARD_SLASH : ascii := "/"%char.
Definition CHAR_DOT : ascii := "."%char.

Definition isPosixPathSeparator (code : ascii) : bool :=
  Ascii.eqb code CHAR_FORWARD_SLASH.

Record scan := mkScan {
  res : string;
  lastSegmentLength : Z;
  lastSlash : Z;
  dots : Z
}.

Definition is_char (o : option ascii) (c : ascii) : bool :=
  match o with Some a => Ascii.eqb a c | None => false end.

(** The branch of [normalizeString] that keeps a [..] segment. *)
Definition keep_dotdot (allowAboveRoot : bool) (i : Z) (st : scan) : scan :=
  if allowAboveRoot then
    mkScan (if (js.len (res st) >? 0)%Z then res st +:+ "/.." else "..") 2 i 0
  else mkScan (res st) (lastSegmentLength st) i 0.

(** One turn of the loop of [normalizeString] at index [i] with the
    character [code]. *)
Definition normalizeString_step (path : string) (allowAboveRoot : bool)
    (i : Z) (code : ascii) (st : scan) : scan :=
  if isPosixPathSeparator code then
    if (lastSlash st =? i - 1)%Z || (dots st =? 1)%Z then
      mkScan (res st) (lastSegmentLength st) i 0
    else if (dots st =? 2)%Z then
      if (js.len (res st) <? 2)%Z
         || negb (lastSegmentLength st =? 2)%Z
         || negb (is_char (js.charCodeAt (res st) (js.len (res st) - 1)) CHAR_DOT)
         || negb (is_char (js.charCodeAt (res st) (js.len (res st) - 2)) CHAR_DOT)
      then
        if (js.len (res st) >? 2)%Z then
          let lastSlashIndex := js.lastIndexOf (res st) CHAR_FORWARD_SLASH in
          if (lastSlashIndex =? -1)%Z then mkScan "" 0 i 0
          else
            let r := js.slice (res st) 0 lastSlashIndex in
            mkScan r (js.len r - 1 - js.lastIndexOf r CHAR_FORWARD_SLASH) i 0
        else if negb (js.len (res st) =? 0)%Z then mkScan "" 0 i 0
        else keep_dotdot allowAboveRoot i st
      else keep_dotdot allowAboveRoot i st
    else
      let seg := js.slice path (lastSlash st + 1) i in
      mkScan (if (js.len (res st) >? 0)%Z then res st +:+ "/" +:+ seg else seg)
             (i - lastSlash st - 1) i 0
  else if Ascii.eqb code CHAR_DOT && negb (dots st =? -1)%Z then
    mkScan (res st) (lastSegmentLength st) (lastSlash st) (dots st + 1)
  else mkScan (res st) (lastSegmentLength st) (lastSlash st) (-1).

(** The loop [for (i = 0; i <= path.length; ++i)]: [rest] is what is left
    of [path] from index [i], [code] the character read last. *)
Fixpoint normalizeString_loop (path : string) (allowAboveRoot : bool)
    (rest : string) (i : Z) (code : ascii) (st : scan) : string :=
  match rest with
  | String c rest' =>
      normalizeString_loop path allowAboveRoot rest' (i + 1) c
        (normalizeString_step path allowAboveRoot i c st)
  | EmptyString =>
      if isPosixPathSeparator code then res st
      else res (normalizeString_step path allowAboveRoot i CHAR_FORWARD_SLASH st)
  end.

Definition normalizeString (path : string) (allowAboveRoot : bool) : string :=
  normalizeString_loop path allowAboveRoot path 0 Ascii.zero (mkScan "" 0 (-1) 0).

(** [posix.normalize] *)
Definition normalize (path : string) : string :=
  if (js.len path =? 0)%Z then "."
  else
    let isAbsolute := is_char (js.charCodeAt path 0) CHAR_FORWARD_SLASH in
    let trailingSeparator :=
      is_char (js.charCodeAt path (js.len path - 1)) CHAR_FORWARD_SLASH in
    let p := normalizeString path (negb isAbsolute) in
    if (js.len p =? 0)%Z then
      if isAbsolute then "/" else if trailingSeparator then "./" else "."
    else
      let p' := if trailingSeparator then p +:+ "/" else p in
      if isAbsolute then "/" +:+ p' else p'.

(** [posix.join(...args)] *)
Definition join (args : list string) : string :=
  let joined :=
    fold_left
      (fun (joined : option string) (arg : string) =>
         if (js.len arg >? 0)%Z then
           match joined with
           | None => Some arg
           | Some j => Some (j +:+ "/" +:+ arg)
           end
         else joined)
      args None in
  match joined with
  | None => "."
  | Some j => normalize j
  end.

End path.

(** ** Data model *)

(** A promise is known by its allocation number. *)
Definition Promise := nat.

(** An exception value. *)
Definition exn := string.

(** [ActiveServer].  [sid] is the identity of the JavaScript object, so that
    equality of records is the [===] of the source; the disposable, the
    process and the connection of a server are owned by it and are addressed
    through it.  [pid] is [process.pid]. *)
Record ActiveServer := mkActiveServer {
  sid : nat;
  projectPath : string;
  pid : nat
}.

#[global] Instance ActiveServer_eq_dec : EqDecision ActiveServer.
Proof. solve_decision. Defined.

Record RestartCounter := mkRestartCounter {
  restarts : nat;
  timerId : nat
}.

(** A text editor: its identity and what [getPath()] answers. *)
Record TextEditor := mkTextEditor {
  editorId : nat;
  getPath : option string
}.

(** Atom's [FilesystemChange]: only a rename carries an [oldPath]. *)
Inductive FilesystemChange :=
| created (path : string)
| modified (path : string)
| deleted (path : string)
| renamed (path oldPath : string).

Definition change_path (ev : FilesystemChange) : string :=
  match ev with
  | created p | modified p | deleted p | renamed p _ => p
  end.

Inductive FileChangeType := Created | Changed | Deleted.

(** The protocol's [FileEvent]. *)
Record FileEvent := mkFileEvent {
  uri : string;
  type : FileChangeType
}.

Inductive LogMsg :=
| ServerStarting (projectPath : string)
| ServerStarted (projectPath : string) (pid : nat)
| ServerStopping (projectPath : string)
| ServerStopped (projectPath : string) (pid : nat).

Inductive SubscriptionKind :=
| ObserveTextEditors
| OnDidChangePaths
| OnDidChangeFiles
| OnDidDestroy (editorId : nat).

(** The calls the manager makes on its collaborators. *)
Inductive Call :=
| StartServer (projectPath : string) (p : Promise)
| LoggerDebug (msg : LogMsg)
| DisposableDispose (server : ActiveServer)
| ConnectionShutdown (server : ActiveServer)
| ConnectionExit (server : ActiveServer)
| ConnectionDispose (server : ActiveServer)
| ProcessKill (server : ActiveServer)
| DidChangeWatchedFiles (server : ActiveServer) (changes : list (option FileEvent))
| SetTimeout (id : nat) (ms : Z)
| ClearTimeout (id : nat).

(** Atom's [CompositeDisposable]: [add] after [dispose] is ignored. *)
Record CompositeDisposable := mkComposite {
  disposed : bool;
  disposables : list nat
}.

(** The fields of the [ServerManager] class.  The injected start function,
    logger and busy reporter act on the [World]; the two injected predicates
    are pure. *)
Record ServerManager := mkServerManager {
  _activeServers : list ActiveServer;
  _startingServerPromises : gmap string Promise;
  _restartCounterPerProject : gmap string RestartCounter;
  _stoppingServers : list ActiveServer;
  _disposable : CompositeDisposable;
  _editorToServer : gmap nat ActiveServer;
  _normalizedProjectPaths : list string;
  _isStarted : bool;
  _startForEditor : TextEditor -> bool;
  _changeWatchedFileFilter : string -> bool
}.

(** What surrounds the manager. *)
Record World := mkWorld {
  (** the calls made so far, oldest first *)
  calls : list Call;
  (** [startServer] frames suspended at [await startingPromise] *)
  awaitingStart : list (Promise * string);
  (** [stopServer] frames suspended at [await server.connection.shutdown()] *)
  awaitingShutdown : list ActiveServer;
  nextPromise : nat;
  (** servers whose connection has closed ([isConnected] is false) *)
  closedConnections : list nat;
  (** the clock, in milliseconds, and the timers set: id, deadline, and the
      project path the callback deletes *)
  now : Z;
  timers : list (nat * Z * string);
  nextTimer : nat;
  (** Atom's live event subscriptions *)
  subscriptions : list (nat * SubscriptionKind);
  nextSubscription : nat;
  (** [atom.project.getDirectories()] and whether [onDidChangeFiles] exists *)
  directories : list string;
  hasOnDidChangeFiles : bool;
  (** which calls throw *)
  faults : Call -> option exn
}.

Record State := mkState { mgr : ServerManager; world : World }.

(** *** Field updates *)

Definition set_activeServers (v : list ActiveServer) (m : ServerManager) :=
  mkServerManager v (_startingServerPromises m) (_restartCounterPerProject m)
    (_stoppingServers m) (_disposable m) (_editorToServer m)
    (_normalizedProjectPaths m) (_isStarted m) (_startForEditor m)
    (_changeWatchedFileFilter m).

Definition set_startingServerPromises (v : gmap string Promise) (m : ServerManager) :=
  mkServerManager (_activeServers m) v (_restartCounterPerProject m)
    (_stoppingServers m) (_disposable m) (_editorToServer m)
    (_normalizedProjectPaths m) (_isStarted m) (_startForEditor m)
    (_changeWatchedFileFilter m).

Definition set_restartCounterPerProject (v : gmap string RestartCounter)
    (m : ServerManager) :=
  mkServerManager (_activeServers m) (_startingServerPromises m) v
    (_stoppingServers m) (_disposable m) (_editorToServer m)
    (_normalizedProjectPaths m) (_isStarted m) (_startForEditor m)
    (_changeWatchedFileFilter m).

Definition set_stoppingServers (v : list ActiveServer) (m : ServerManager) :=
  mkServerManager (_activeServers m) (_startingServerPromises m)
    (_restartCounterPerProject m) v (_disposable m) (_editorToServer m)
    (_normalizedProjectPaths m) (_isStarted m) (_startForEditor m)
    (_changeWatchedFileFilter m).

Definition set_disposable (v : CompositeDisposable) (m : ServerManager) :=
  mkServerManager (_activeServers m) (_startingServerPromises m)
    (_restartCounterPerProject m) (_stoppingServers m) v (_editorToServer m)
    (_normalizedProjectPaths m) (_isStarted m) (_startForEditor m)
    (_changeWatchedFileFilter m).

Definition set_editorToServer (v : gmap nat ActiveServer) (m : ServerManager) :=
  mkServerManager (_activeServers m) (_startingServerPromises m)
    (_restartCounterPerProject m) (_stoppingServers m) (_disposable m) v
    (_normalizedProjectPaths m) (_isStarted m) (_startForEditor m)
    (_changeWatchedFileFilter m).

Definition set_normalizedProjectPaths (v : list string) (m : ServerManager) :=
  mkServerManager (_activeServers m) (_startingServerPromises m)
    (_restartCounterPerProject m) (_stoppingServers m) (_disposable m)
    (_editorToServer m) v (_isStarted m) (_startForEditor m)
    (_changeWatchedFileFilter m).

Definition set_isStarted (v : bool) (m : ServerManager) :=
  mkServerManager (_activeServers m) (_startingServerPromises m)
    (_restartCounterPerProject m) (_stoppingServers m) (_disposable m)
    (_editorToServer m) (_normalizedProjectPaths m) v (_startForEditor m)
    (_changeWatchedFileFilter m).

Definition set_calls (v : list Call) (w : World) :=
  mkWorld v (awaitingStart w) (awaitingShutdown w) (nextPromise w)
    (closedConnections w) (now w) (timers w) (nextTimer w) (subscriptions w)
    (nextSubscription w) (directories w) (hasOnDidChangeFiles w) (faults w).

Definition set_awaitingStart (v : list (Promise * string)) (w : World) :=
  mkWorld (calls w) v (awaitingShutdown w) (nextPromise w)
    (closedConnections w) (now w) (timers w) (nextTimer w) (subscriptions w)
    (nextSubscription w) (directories w) (hasOnDidChangeFiles w) (faults w).

Definition set_awaitingShutdown (v : list ActiveServer) (w : World) :=
  mkWorld (calls w) (awaitingStart w) v (nextPromise w)
    (closedConnections w) (now w) (timers w) (nextTimer w) (subscriptions w)
    (nextSubscription w) (directories w) (hasOnDidChangeFiles w) (faults w).

Definition set_nextPromise (v : nat) (w : World) :=
  mkWorld (calls w) (awaitingStart w) (awaitingShutdown w) v
    (closedConnections w) (now w) (timers w) (nextTimer w) (subscriptions w)
    (nextSubscription w) (directories w) (hasOnDidChangeFiles w) (faults w).

Definition set_closedConnections (v : list nat) (w : World) :=
  mkWorld (calls w) (awaitingStart w) (awaitingShutdown w) (nextPromise w)
    v (now w) (timers w) (nextTimer w) (subscriptions w)
    (nextSubscription w) (directories w) (hasOnDidChangeFiles w) (faults w).

Definition set_now (v : Z) (w : World) :=
  mkWorld (calls w) (awaitingStart w) (awaitingShutdown w) (nextPromise w)
    (closedConnections w) v (timers w) (nextTimer w) (subscriptions w)
    (nextSubscription w) (directories w) (hasOnDidChangeFiles w) (faults w).

Definition set_timers (v : list (nat * Z * string)) (w : World) :=
  mkWorld (calls w) (awaitingStart w) (awaitingShutdown w) (nextPromise w)
    (closedConnections w) (now w) v (nextTimer w) (subscriptions w)
    (nextSubscription w) (directories w) (hasOnDidChangeFiles w) (faults w).

Definition set_nextTimer (v : nat) (w : World) :=
  mkWorld (calls w) (awaitingStart w) (awaitingShutdown w) (nextPromise w)
    (closedConnections w) (now w) (timers w) v (subscriptions w)
    (nextSubscription w) (directories w) (hasOnDidChangeFiles w) (faults w).

Definition set_subscriptions (v : list (nat * SubscriptionKind)) (w : World) :=
  mkWorld (calls w) (awaitingStart w) (awaitingShutdown w) (nextPromise w)
    (closedConnections w) (now w) (timers w) (nextTimer w) v
    (nextSubscription w) (directories w) (hasOnDidChangeFiles w) (faults w).

Definition set_nextSubscription (v : nat) (w : World) :=
  mkWorld (calls w) (awaitingStart w) (awaitingShutdown w) (nextPromise w)
    (closedConnections w) (now w) (timers w) (nextTimer w) (subscriptions w)
    v (directories w) (hasOnDidChangeFiles w) (faults w).

Definition set_directories (v : list string) (w : World) :=
  mkWorld (calls w) (awaitingStart w) (awaitingShutdown w) (nextPromise w)
    (closedConnections w) (now w) (timers w) (nextTimer w) (subscriptions w)
    (nextSubscription w) v (hasOnDidChangeFiles w) (faults w).

(** ** The monad of a synchronous segment: state and exceptions *)

Inductive outcome (A : Type) :=
| Return (a : A)
| Throw (e : exn).
Arguments Return {A} a.
Arguments Throw {A} e.

Definition M (A : Type) : Type := State -> outcome A * State.

#[global] Instance M_ret : MRet M := fun A a st => (Return a, st).

#[global] Instance M_bind : MBind M := fun A B k c st =>
  match c st with
  | (Return a, st') => k a st'
  | (Throw e, st') => (Throw e, st')
  end.

Definition throw {A} (e : exn) : M A := fun st => (Throw e, st).

(** [try { body } finally { fin }] *)
Definition try_finally {A} (body : M A) (fin : M unit) : M A := fun st =>
  match body st with
  | (r, st1) =>
      match fin st1 with
      | (Return _, st2) => (r, st2)
      | (Throw e, st2) => (Throw e, st2)
      end
  end.

Definition get_mgr : M ServerManager := fun st => (Return (mgr st), st).
Definition get_world : M World := fun st => (Return (world st), st).

Definition modify_mgr (f : ServerManager -> ServerManager) : M unit :=
  fun st => (Return tt, mkState (f (mgr st)) (world st)).

Definition modify_world (f : World -> World) : M unit :=
  fun st => (Return tt, mkState (mgr st) (f (world st))).

(** A call that cannot throw: it is only written to the log. *)
Definition log (c : Call) : M unit :=
  modify_world (fun w => set_calls (calls w ++ [c]) w).

(** A call that may throw: it is made, then its fault (if any) is raised. *)
Definition call (c : Call) : M unit :=
  log c;;
  w ← get_world;
  match faults w c with
  | Some e => throw e
  | None => mret tt
  end.

(** [for (const x of l) body(x)] over a list that the body does not change. *)
Fixpoint for_of {A} (l : list A) (body : A -> M unit) : M unit :=
  match l with
  | [] => mret tt
  | x :: l' => body x;; for_of l' body
  end.

(** ** The server manager *)

(** [normalizePath] *)
Definition normalizePath (projectPath : string) : string :=
  if negb (js.endsWith projectPath path.sep)
  then path.join [projectPath; path.sep]
  else projectPath.

(** [updateNormalizedProjectPaths] *)
Definition updateNormalizedProjectPaths : M unit :=
  w ← get_world;
  modify_mgr (set_normalizedProjectPaths (map normalizePath (directories w))).

(** The constructor: every table is empty, [_isStarted] is false, and the
    project roots are read once. *)
Definition new_ServerManager (startForEditor : TextEditor -> bool)
    (changeWatchedFileFilter : string -> bool) (w : World) : State :=
  snd (updateNormalizedProjectPaths
         (mkState
            (mkServerManager [] ∅ ∅ [] (mkComposite false []) ∅ [] false
               startForEditor changeWatchedFileFilter)
            w)).

(** *** Listening *)

(** An Atom event source hands back a disposable for the new subscription.
    (The calls Atom makes back into the manager, also the ones [observe]
    makes at once for the editors already open, are events of the run.) *)
Definition atom_subscribe (kind : SubscriptionKind) : M nat := fun st =>
  let w := world st in
  let d := nextSubscription w in
  (Return d,
   mkState (mgr st)
     (set_nextSubscription (S d) (set_subscriptions (subscriptions w ++ [(d, kind)]) w))).

(** [this._disposable.add(d)] *)
Definition disposable_add (d : nat) : M unit :=
  modify_mgr (fun m =>
    if disposed (_disposable m) then m
    else set_disposable (mkComposite false (disposables (_disposable m) ++ [d])) m).

(** [this._disposable.dispose()] *)
Definition disposable_dispose : M unit := fun st =>
  let c := _disposable (mgr st) in
  if disposed c then (Return tt, st)
  else
    (Return tt,
     mkState (set_disposable (mkComposite true []) (mgr st))
       (set_subscriptions
          (filter (fun s => fst s ∉ disposables c) (subscriptions (world st)))
          (world st))).

(** [startListening] *)
Definition startListening : M unit :=
  m ← get_mgr;
  if negb (_isStarted m) then
    modify_mgr (set_disposable (mkComposite false []));;
    d1 ← atom_subscribe ObserveTextEditors;
    disposable_add d1;;
    d2 ← atom_subscribe OnDidChangePaths;
    disposable_add d2;;
    w ← get_world;
    if hasOnDidChangeFiles w then
      d3 ← atom_subscribe OnDidChangeFiles;
      disposable_add d3
    else mret tt
  else mret tt.

(** [stopListening] *)
Definition stopListening : M unit :=
  m ← get_mgr;
  if _isStarted m then
    disposable_dispose;;
    modify_mgr (set_isStarted false)
  else mret tt.

(** *** Resolving an editor to a server *)

(** [determineProjectPath]; the final [|| null] turns an empty string into
    [null] as well. *)
Definition determineProjectPath (m : ServerManager) (textEditor : TextEditor)
    : option string :=
  match getPath textEditor with
  | None => None
  | Some filePath =>
      match List.find (fun d => js.startsWith filePath d) (_normalizedProjectPaths m) with
      | Some d => if String.eqb d "" then None else Some d
      | None => None
      end
  end.

(** What the promise returned by [getServer] settles to: a value known at
    once, or whatever the start promise [p] settles to. *)
Inductive ServerResult :=
| resolved (server : option ActiveServer)
| settlesWith (p : Promise).

(** [startServer], up to its [await]: the start function is invoked, its
    promise is registered, and the frame is suspended on it. *)
Definition startServer (projectPath : string) : M Promise :=
  log (LoggerDebug (ServerStarting projectPath));;
  w ← get_world;
  let startingPromise := nextPromise w in
  modify_world (set_nextPromise (S startingPromise));;
  log (StartServer projectPath startingPromise);;
  modify_mgr (fun m =>
    set_startingServerPromises
      (<[projectPath := startingPromise]> (_startingServerPromises m)) m);;
  modify_world (fun w =>
    set_awaitingStart (awaitingStart w ++ [(startingPromise, projectPath)]) w);;
  mret startingPromise.

(** [startServer] after its [await], when the promise was fulfilled. *)
Definition startServer_fulfilled (projectPath : string)
    (startedActiveServer : ActiveServer) : M ActiveServer :=
  modify_mgr (fun m =>
    set_activeServers (_activeServers m ++ [startedActiveServer]) m);;
  modify_mgr (fun m =>
    set_startingServerPromises (delete projectPath (_startingServerPromises m)) m);;
  log (LoggerDebug (ServerStarted projectPath (pid startedActiveServer)));;
  mret startedActiveServer.

(** [startServer] after its [await], when the promise was rejected: the
    [catch] clause. *)
Definition startServer_rejected (projectPath : string) (e : exn)
    : M ActiveServer :=
  modify_mgr (fun m =>
    set_startingServerPromises (delete projectPath (_startingServerPromises m)) m);;
  throw e.

(** [getServer] *)
Definition getServer (textEditor : TextEditor) (shouldStart : bool)
    : M ServerResult :=
  m ← get_mgr;
  match determineProjectPath m textEditor with
  | None => mret (resolved None)
  | Some finalProjectPath =>
      match List.find (fun s => String.eqb finalProjectPath (projectPath s))
                      (_activeServers m) with
      | Some foundActiveServer => mret (resolved (Some foundActiveServer))
      | None =>
          match _startingServerPromises m !! finalProjectPath with
          | Some startingPromise => mret (settlesWith startingPromise)
          | None =>
              if shouldStart && _startForEditor m textEditor then
                p ← startServer finalProjectPath;
                mret (settlesWith p)
              else mret (resolved None)
          end
      end
  end.

(** [_handleTextEditor] after [await this.getServer(...)] gave a server. *)
Definition _handleTextEditor_resume (editor : TextEditor)
    (server : option ActiveServer) : M unit :=
  match server with
  | Some server =>
      modify_mgr (fun m =>
        set_editorToServer (<[editorId editor := server]> (_editorToServer m)) m);;
      d ← atom_subscribe (OnDidDestroy (editorId editor));
      disposable_add d
  | None => mret tt
  end.

(** *** Stopping *)

(** [server.connection.isConnected] *)
Definition isConnected (w : World) (server : ActiveServer) : bool :=
  bool_decide (sid server ∉ closedConnections w).

(** [exitServer] *)
Definition exitServer (server : ActiveServer) : M unit :=
  let pid := pid server in
  try_finally
    (w ← get_world;
     if isConnected w server then
       call (ConnectionExit server);;
       call (ConnectionDispose server)
     else mret tt)
    (call (ProcessKill server));;
  log (LoggerDebug (ServerStopped (projectPath server) pid)).

(** [stopServer] after [await server.connection.shutdown()], or straight on
    when the connection is closed. *)
Definition stopServer_resume (server : ActiveServer) : M unit :=
  modify_mgr (fun m =>
    set_editorToServer
      (filter (fun kv => snd kv ≠ server) (_editorToServer m)) m);;
  exitServer server;;
  modify_mgr (fun m =>
    set_stoppingServers (js.splice_indexOf (_stoppingServers m) server) m).

Inductive Progress := Completed | Suspended.

(** [stopServer], up to its [await].  The busy reporter is an async function
    that starts by calling the action it is given, so the action's first
    segment runs within the call of [stopServer]. *)
Definition stopServer (server : ActiveServer) : M Progress :=
  log (LoggerDebug (ServerStopping (projectPath server)));;
  modify_mgr (fun m =>
    set_activeServers (js.splice_indexOf (_activeServers m) server) m);;
  modify_mgr (fun m =>
    set_stoppingServers (_stoppingServers m ++ [server]) m);;
  call (DisposableDispose server);;
  w ← get_world;
  if isConnected w server then
    log (ConnectionShutdown server);;
    modify_world (fun w => set_awaitingShutdown (awaitingShutdown w ++ [server]) w);;
    mret Suspended
  else
    stopServer_resume server;;
    mret Completed.

(** [this._activeServers.map((s) => this.stopServer(s))]: [map] fixes the
    length at the start and reads index [k] of the array as it is when it
    gets there; the calls of [stopServer] shorten the array meanwhile. *)
Fixpoint map_stopServer_live (ks : list nat) : M unit :=
  match ks with
  | [] => mret tt
  | k :: ks' =>
      m ← get_mgr;
      match _activeServers m !! k with
      | Some s => stopServer s;; map_stopServer_live ks'
      | None => map_stopServer_live ks'
      end
  end.

(** [clearTimeout] *)
Definition clearTimeout (id : nat) : M unit :=
  log (ClearTimeout id);;
  modify_world (fun w =>
    set_timers (filter (fun t => fst (fst t) ≠ id) (timers w)) w).

(** [stopAllServers], up to its [await]. *)
Definition stopAllServers : M unit :=
  m ← get_mgr;
  for_of (map_to_list (_restartCounterPerProject m))
    (fun '(projectPath, restartCounter) =>
       clearTimeout (timerId restartCounter);;
       modify_mgr (fun m =>
         set_restartCounterPerProject
           (delete projectPath (_restartCounterPerProject m)) m));;
  m ← get_mgr;
  map_stopServer_live (seq 0 (List.length (_activeServers m))).

(** [restartAllServers], up to its [await]. *)
Definition restartAllServers : M unit :=
  stopListening;;
  stopAllServers.

(** [restartAllServers] after [await this.stopAllServers()]. *)
Definition restartAllServers_resume : M unit :=
  modify_mgr (set_editorToServer ∅);;
  startListening.

(** *** Restart limit *)

(** [setTimeout(callback, ms)]; the callback of the only timer the manager
    sets deletes the restart counter of [projectPath]. *)
Definition setTimeout (projectPath : string) (ms : Z) : M nat := fun st =>
  let w := world st in
  let id := nextTimer w in
  (Return id,
   mkState (mgr st)
     (set_nextTimer (S id)
        (set_timers (timers w ++ [(id, (now w + ms)%Z, projectPath)])
           (set_calls (calls w ++ [SetTimeout id ms]) w)))).

(** [hasServerReachedRestartLimit] *)
Definition hasServerReachedRestartLimit (server : ActiveServer) : M bool :=
  m ← get_mgr;
  restartCounter ←
    match _restartCounterPerProject m !! projectPath server with
    | Some restartCounter => mret restartCounter
    | None =>
        id ← setTimeout (projectPath server) (3 * 60 * 1000);
        let restartCounter := mkRestartCounter 0 id in
        modify_mgr (fun m =>
          set_restartCounterPerProject
            (<[projectPath server := restartCounter]> (_restartCounterPerProject m)) m);;
        mret restartCounter
    end;
  let restarts' := S (restarts restartCounter) in
  modify_mgr (fun m =>
    set_restartCounterPerProject
      (<[projectPath server := mkRestartCounter restarts' (timerId restartCounter)]>
         (_restartCounterPerProject m)) m);;
  mret (5 <? restarts')%nat.

(** The callback of a decay timer. *)
Definition timer_callback (projectPath : string) : M unit :=
  modify_mgr (fun m =>
    set_restartCounterPerProject
      (delete projectPath (_restartCounterPerProject m)) m).

(** The clock moves on to [t]; the timers that are due run and are gone. *)
Definition advance_clock (t : Z) : M unit :=
  w ← get_world;
  let t' := Z.max (now w) t in
  let due := filter (fun x => (snd (fst x) <= t')%Z) (timers w) in
  modify_world (fun w =>
    set_now t' (set_timers (filter (fun x => ¬ (snd (fst x) <= t')%Z) (timers w)) w));;
  for_of due (fun x => timer_callback (snd x)).

(** *** Watched files *)

Section FilesChanged.

(** [Convert.atomFileEventToLSFileEvents], which lives in another module of
    the package; the manager only indexes its result. *)
Variable atomFileEventToLSFileEvents : FilesystemChange -> list FileEvent.

(** The body of the inner loop of [projectFilesChanged] for one event:
    what it pushes on [changes].  [xs !! i] is [None] where JavaScript
    gives [undefined]. *)
Definition pushed_changes (m : ServerManager) (activeServer : ActiveServer)
    (fileEvent : FilesystemChange) : list (option FileEvent) :=
  (if js.startsWith (change_path fileEvent) (projectPath activeServer)
      && _changeWatchedFileFilter m (change_path fileEvent)
   then [atomFileEventToLSFileEvents fileEvent !! 0%nat] else [])
  ++
  match fileEvent with
  | renamed _ oldPath =>
      if js.startsWith oldPath (projectPath activeServer)
         && _changeWatchedFileFilter m oldPath
      then [atomFileEventToLSFileEvents fileEvent !! 1%nat] else []
  | _ => []
  end.



End FilesChanged.

(** ** The run loop *)

(** What can happen to the manager: a call of one of its methods, or the
    resumption of one of its suspended frames. *)
Inductive event :=
| call_getServer (textEditor : TextEditor) (shouldStart : bool)
| call_startServer (projectPath : string)
| start_fulfilled (p : Promise) (server : ActiveServer)
| start_rejected (p : Promise) (e : exn)
| handleTextEditor_resumes (editor : TextEditor) (server : option ActiveServer)
| editor_destroyed (editor : TextEditor)
| call_stopServer (server : ActiveServer)
| shutdown_fulfilled (server : ActiveServer)
| shutdown_rejected (server : ActiveServer)
| connection_closed (server : ActiveServer)
| call_exitServer (server : ActiveServer)
| call_hasServerReachedRestartLimit (server : ActiveServer)
| clock_reaches (t : Z)
| call_stopAllServers
| call_restartAllServers
| restartAllServers_resumes
| call_startListening
| call_stopListening
| directories_become (dirs : list string)
| call_updateNormalizedProjectPaths.

(** A segment run for its effect; its outcome goes to its own promise. *)
Definition detached {A} (c : M A) : M unit := fun st => (Return tt, snd (c st)).

(** The frames of [startServer] waiting on [p] resume with [k]. *)
Definition settle_start (p : Promise) (k : string -> M ActiveServer) : M unit :=
  w ← get_world;
  let frames := filter (fun f => fst f = p) (awaitingStart w) in
  modify_world (fun w =>
    set_awaitingStart (filter (fun f => fst f ≠ p) (awaitingStart w)) w);;
  for_of frames (fun f => detached (k (snd f))).

(** One frame of [stopServer] waiting on the shutdown of [server], if there
    is one, is taken off and resumes with [k]. *)
Definition settle_shutdown (server : ActiveServer) (k : M unit) : M unit :=
  w ← get_world;
  if bool_decide (server ∈ awaitingShutdown w) then
    modify_world (fun w =>
      set_awaitingShutdown (js.splice_indexOf (awaitingShutdown w) server) w);;
    detached k
  else mret tt.

Definition handle (e : event) : M unit :=
  match e with
  | call_getServer textEditor shouldStart => detached (getServer textEditor shouldStart)
  | call_startServer projectPath => detached (startServer projectPath)
  | start_fulfilled p server =>
      settle_start p (fun projectPath => startServer_fulfilled projectPath server)
  | start_rejected p e =>
      settle_start p (fun projectPath => startServer_rejected projectPath e)
  | handleTextEditor_resumes editor server =>
      detached (_handleTextEditor_resume editor server)
  | editor_destroyed editor =>
      modify_mgr (fun m =>
        set_editorToServer (delete (editorId editor) (_editorToServer m)) m)
  | call_stopServer server => detached (stopServer server)
  | shutdown_fulfilled server => settle_shutdown server (stopServer_resume server)
  | shutdown_rejected server => settle_shutdown server (mret tt)
  | connection_closed server =>
      modify_world (fun w =>
        set_closedConnections (sid server :: closedConnections w) w)
  | call_exitServer server => detached (exitServer server)
  | call_hasServerReachedRestartLimit server =>
      detached (hasServerReachedRestartLimit server)
  | clock_reaches t => advance_clock t
  | call_stopAllServers => detached stopAllServers
  | call_restartAllServers => detached restartAllServers
  | restartAllServers_resumes => detached restartAllServers_resume
  | call_startListening => detached startListening
  | call_stopListening => detached stopListening
  | directories_become dirs => modify_world (set_directories dirs)
  | call_updateNormalizedProjectPaths => detached updateNormalizedProjectPaths
  end.

Definition step (st : State) (e : event) : State := snd (handle e st).

Definition run (events : list event) (st : State) : State :=
  fold_left step events st.



(** An event that hands the instance [server] to the manager as newly
    started. *)
Definition starts_instance (server : ActiveServer) (e : event) : bool :=
  match e with
  | start_fulfilled _ s => bool_decide (s = server)
  | _ => false
  end.

(** A world in which nothing has happened yet. *)
Definition new_World (dirs : list string) (onDidChangeFiles : bool)
    (faults : Call -> option exn) : World :=
  mkWorld [] [] [] 0 [] 0 [] 0 [] 0 dirs onDidChangeFiles faults.

(** ** The connection *)

Module LanguageClientConnection.

(** What a connection does to its surroundings. *)
Inductive output :=
| rpc_listen
| rpc_send (method : string)
| rpc_dispose
| log_warn (message : string)
| listener_called (eventName : string) (listener : nat).

(** The object: the public field [isConnected], the listeners of the
    [EventEmitter] it extends (event name and listener, in the order of
    registration), and what it has done so far. *)
Record t := mk {
  isConnected : bool;
  listeners : list (string * nat);
  outputs : list output
}.

(** [EventEmitter.emit(eventName)]: every listener registered under the
    name is called, in order. *)
Definition emit (eventName : string) (c : t) : t :=
  mk (isConnected c) (listeners c)
     (outputs c ++
      map (listener_called eventName)
          (map snd (filter (fun l => fst l = eventName) (listeners c)))).

(** The callback given to [this._rpc.onClose]. *)
Definition onClose_callback (c : t) : t :=
  let c1 := mk false (listeners c) (outputs c) in
  let c2 := mk (isConnected c1) (listeners c1)
               (outputs c1 ++ [log_warn "The RPC connection closed unexpectedly"]) in
  emit "close" c2.

(** The constructor, after which the callback above is registered with the
    transport. *)
Definition new : t := mk true [] [rpc_listen].

(** What happens to a connection once constructed. *)
Inductive event :=
| transport_closed
| on (eventName : string) (listener : nat)
| removeListener (eventName : string) (listener : nat)
| send (method : string)
| dispose.

Definition step (c : t) (e : event) : t :=
  match e with
  | transport_closed => onClose_callback c
  | on eventName listener =>
      mk (isConnected c) (listeners c ++ [(eventName, listener)]) (outputs c)
  | removeListener eventName listener =>
      mk (isConnected c)
         (js.splice_present (listeners c) (eventName, listener)) (outputs c)
  | send method => mk (isConnected c) (listeners c) (outputs c ++ [rpc_send method])
  | dispose => mk (isConnected c) (listeners c) (outputs c ++ [rpc_dispose])
  end.

Definition run (events : list event) (c : t) : t := fold_left step events c.

(** The values [isConnected] takes along a run, the first one included. *)
Fixpoint history (events : list event) (c : t) : list bool :=
  isConnected c ::
  match events with
  | [] => []
  | e :: events' => history events' (step c e)
  end.

(** How often a list of flags goes from [from] to [to]. *)
Fixpoint changes (from to : bool) (flags : list bool) : nat :=
  match flags with
  | a :: ((b :: _) as rest) =>
      (if bool_decide (a = from ∧ b = to) then 1 else 0) + changes from to rest
  | _ => 0
  end.

Definition is_close (e : event) : bool :=
  match e with transport_closed => true | _ => false end.

End LanguageClientConnection.

(** ** Notions used to state the properties *)

(** A path that ends with the separator. *)
Definition terminated (p : string) : Prop := js.endsWith p path.sep = true.

(** [quiet st st']: from [st] to [st'] no server became active, no start was
    registered or settled, [_isStarted] was not raised, and separator-ended
    project roots stayed so. *)
Record quiet (st st' : State) : Prop := mkQuiet {
  quiet_active :
    _activeServers (mgr st') `sublist_of` _activeServers (mgr st);
  quiet_starting :
    _startingServerPromises (mgr st') = _startingServerPromises (mgr st);
  quiet_awaiting : awaitingStart (world st') = awaitingStart (world st);
  quiet_nextPromise : nextPromise (world st') = nextPromise (world st);
  quiet_isStarted : _isStarted (mgr st) = false -> _isStarted (mgr st') = false;
  quiet_roots :
    Forall terminated (_normalizedProjectPaths (mgr st)) ->
    Forall terminated (_normalizedProjectPaths (mgr st'))
}.

(** A segment is quiet when every run of it is. *)
Definition keeps_quiet {A} (c : M A) : Prop := forall st, quiet st (snd (c st)).

(** The events that neither start a server nor settle a start. *)
Definition starts_nothing (e : event) : bool :=
  match e with
  | call_getServer _ _ | call_startServer _
  | start_fulfilled _ _ | start_rejected _ _ => false
  | _ => true
  end.

(** The active servers of a project path, and the starts in flight for it. *)
Definition serving (P : string) (st : State) : list ActiveServer :=
  filter (fun s => projectPath s = P) (_activeServers (mgr st)).

Definition in_flight (P : string) (st : State) : list (Promise * string) :=
  filter (fun f => snd f = P) (awaitingStart (world st)).

(** The invariant of a manager whose servers are started by [getServer]. *)
Record consistent (st : State) : Prop := mkConsistent {
  cons_active : forall P, length (serving P st) ≤ 1;
  cons_starting : forall P p,
    _startingServerPromises (mgr st) !! P = Some p <->
    (p, P) ∈ awaitingStart (world st);
  cons_fresh : forall p P,
    (p, P) ∈ awaitingStart (world st) -> p < nextPromise (world st);
  cons_nodup : NoDup (awaitingStart (world st)).*1;
  cons_exclusive : forall p P s,
    (p, P) ∈ awaitingStart (world st) ->
    s ∈ _activeServers (mgr st) -> projectPath s ≠ P;
  cons_roots : Forall terminated (_normalizedProjectPaths (mgr st));
  cons_frames : forall p P,
    (p, P) ∈ awaitingStart (world st) -> terminated P;
  cons_servers : forall s,
    s ∈ _activeServers (mgr st) -> terminated (projectPath s)
}.


(** *** A small setting for examples *)

Module Example.

Definition always {A} (_ : A) : bool := true.
Definition no_fault (_ : Call) : option exn := None.

(** A manager for the single project directory [/p], nothing started. *)
Definition manager : State :=
  new_ServerManager always always (new_World ["/p"] true no_fault).

Definition editor1 : TextEditor := mkTextEditor 1 (Some "/p/a.txt").
Definition editor2 : TextEditor := mkTextEditor 2 (Some "/p/b.txt").
Definition server0 : ActiveServer := mkActiveServer 0 "/p/" 100.

End Example.

(** The first root, in the order of registration, that is a prefix of the
    file path. *)
Definition first_match (roots : list string) (filePath d : string) : Prop :=
  exists i,
    roots !! i = Some d ∧ js.startsWith filePath d = true ∧
    forall j d', j < i -> roots !! j = Some d' -> js.startsWith filePath d' = false.

(** A longest root among those that are a prefix of the file path. *)
Definition longest_match (roots : list string) (filePath d : string) : Prop :=
  d ∈ roots ∧ js.startsWith filePath d = true ∧
  forall d', d' ∈ roots -> js.startsWith filePath d' = true ->
             String.length d' ≤ String.length d.

(** Restart attempts: before each call of [hasServerReachedRestartLimit] the
    clock moves on to the given time. *)
Fixpoint attempts (server : ActiveServer) (times : list Z) (st : State)
    : list (outcome bool) * State :=
  match times with
  | [] => ([], st)
  | t :: times' =>
      let st1 := snd (advance_clock t st) in
      let (r, st2) := hasServerReachedRestartLimit server st1 in
      let (rs, st3) := attempts server times' st2 in
      (r :: rs, st3)
  end.

(** What the [k]-th attempt of a window is answered. *)
Definition limit_reached (k : nat) : outcome bool := Return (5 <? k)%nat.

(** The polite part of [exitServer]: the calls it makes on the connection,
    and the exception it ends with, if any. *)
Definition polite_calls (w : World) (server : ActiveServer) : list Call :=
  if isConnected w server then
    match faults w (ConnectionExit server) with
    | Some _ => [ConnectionExit server]
    | None => [ConnectionExit server; ConnectionDispose server]
    end
  else [].

Definition polite_fault (w : World) (server : ActiveServer) : option exn :=
  if isConnected w server then
    match faults w (ConnectionExit server) with
    | Some e => Some e
    | None => faults w (ConnectionDispose server)
    end
  else None.

(** What [exitServer] ends with: an exception of [kill] wins over one of the
    polite part. *)
Definition exit_outcome (w : World) (server : ActiveServer) : outcome unit :=
  match faults w (ProcessKill server) with
  | Some e => Throw e
  | None =>
      match polite_fault w server with
      | Some e => Throw e
      | None => Return tt
      end
  end.

(** No editor is mapped to the server. *)
Definition unmapped (server : ActiveServer) (st : State) : Prop :=
  forall editor s, _editorToServer (mgr st) !! editor = Some s -> s ≠ server.




(** Modelled from the spec: [Convert.atomFileEventToLSFileEvents] is missing
    from the sources at hand; the spec says that a rename is translated into
    two records, delete-old and create-new, and every other event into one
    record.  (Paths stand for their URIs.) *)
Definition atomFileEventToLSFileEvents_spec (fileEvent : FilesystemChange)
    : list FileEvent :=
  match fileEvent with
  | created p => [mkFileEvent p Created]
  | modified p => [mkFileEvent p Changed]
  | deleted p => [mkFileEvent p Deleted]
  | renamed p oldPath => [mkFileEvent oldPath Deleted; mkFileEvent p Created]
  end.

(** * Properties *)

(** ** Paths *)

Example path_normalize_dotdot :
  path.normalize "/foo/bar//baz/asdf/quux/.." = "/foo/bar/baz/asdf".
Proof. reflexivity. Qed.

Example path_join_segments :
  path.join ["/foo"; "bar"; "baz/asdf"; "quux"; ".."] = "/foo/bar/baz/asdf".
Proof. reflexivity. Qed.

Example path_join_above_root : path.join ["a/../.."; "/"] = "../".
Proof. reflexivity. Qed.

Example normalizePath_adds_separator : normalizePath "/home/u/proj" = "/home/u/proj/".
Proof. reflexivity. Qed.

Example normalizePath_keeps_separator : normalizePath "/home/u/proj/" = "/home/u/proj/".
Proof. reflexivity. Qed.

Example normalizePath_empty : normalizePath "" = "/".
Proof. reflexivity. Qed.

Lemma string_length_app (a b : string) :
  String.length (a +:+ b) = (String.length a + String.length b)%nat.
Proof. induction a as [|c a IH]; simpl; [reflexivity | now rewrite IH]. Qed.

Lemma string_app_assoc (a b c : string) : (a +:+ b) +:+ c = a +:+ (b +:+ c).
Proof.
  induction a as [|x a IH]; [reflexivity|].
  change (String x ((a +:+ b) +:+ c) = String x (a +:+ (b +:+ c))).
  now rewrite IH.
Qed.

Lemma substring_at_end (s : string) (c : ascii) :
  String.substring (String.length s) 1 (s +:+ String c EmptyString)
  = String c EmptyString.
Proof. induction s as [|x s IH]; simpl; [reflexivity | exact IH]. Qed.

Lemma get_at_end (s : string) (c : ascii) :
  String.get (String.length s) (s +:+ String c EmptyString) = Some c.
Proof. induction s as [|x s IH]; simpl; [reflexivity | exact IH]. Qed.

Lemma endsWith_snoc_sep (s : string) : js.endsWith (s +:+ path.sep) path.sep = true.
Proof.
  unfold js.endsWith, path.sep. rewrite string_length_app. simpl String.length.
  replace (1 <=? String.length s + 1)%nat with true
    by (symmetry; apply Nat.leb_le; lia).
  replace (String.length s + 1 - 1)%nat with (String.length s) by lia.
  rewrite substring_at_end. reflexivity.
Qed.

Lemma trailing_separator_snoc (s : string) :
  path.is_char (js.charCodeAt (s +:+ "/") (js.len (s +:+ "/") - 1))
    path.CHAR_FORWARD_SLASH = true.
Proof.
  unfold js.charCodeAt, js.len. rewrite string_length_app. simpl String.length.
  replace (Z.of_nat (String.length s + 1) - 1)%Z with (Z.of_nat (String.length s))
    by lia.
  destruct (Z.ltb_spec (Z.of_nat (String.length s)) 0); [lia|].
  rewrite Nat2Z.id, get_at_end. reflexivity.
Qed.

(** [normalize] keeps a trailing separator. *)
Lemma normalize_trailing_separator (s : string) :
  js.endsWith (path.normalize (s +:+ "/")) path.sep = true.
Proof.
  unfold path.normalize.
  assert (Hlen : (js.len (s +:+ "/") =? 0)%Z = false).
  { apply Z.eqb_neq. unfold js.len. rewrite string_length_app. simpl. lia. }
  rewrite Hlen, trailing_separator_snoc. cbv zeta.
  set (abs := path.is_char _ _).
  generalize (path.normalizeString (s +:+ "/") (negb abs)). intros p.
  destruct (js.len p =? 0)%Z.
  - destruct abs; reflexivity.
  - destruct abs.
    + exact (endsWith_snoc_sep ("/" +:+ p)).
    + apply endsWith_snoc_sep.
Qed.

Lemma join_with_sep (p : string) :
  path.join [p; path.sep] = path.normalize (match p with
                                            | EmptyString => ""
                                            | _ => p +:+ "/"
                                            end +:+ "/").
Proof.
  destruct p as [|c p]; [reflexivity|].
  rewrite string_app_assoc. reflexivity.
Qed.

Lemma normalizePath_endsWith_sep (p : string) :
  js.endsWith (normalizePath p) path.sep = true.
Proof.
  unfold normalizePath.
  destruct (js.endsWith p path.sep) eqn:E; simpl; [exact E|].
  rewrite join_with_sep. apply normalize_trailing_separator.
Qed.


(** ** Segments that start nothing *)


Lemma quiet_refl st : quiet st st.
Proof. split; auto. Qed.

Lemma quiet_trans st1 st2 st3 : quiet st1 st2 -> quiet st2 st3 -> quiet st1 st3.
Proof.
  intros [a1 b1 c1 d1 e1 f1] [a2 b2 c2 d2 e2 f2]. split; try congruence; auto.
  etrans; eauto.
Qed.


Lemma keeps_ret {A} (a : A) : keeps_quiet (mret a : M A).
Proof. intros st. apply quiet_refl. Qed.

Lemma keeps_throw {A} (e : exn) : keeps_quiet (throw e : M A).
Proof. intros st. apply quiet_refl. Qed.

Lemma keeps_bind {A B} (c : M A) (k : A -> M B) :
  keeps_quiet c -> (forall a, keeps_quiet (k a)) -> keeps_quiet (c ≫= k).
Proof.
  intros Hc Hk st. unfold mbind, M_bind. specialize (Hc st).
  destruct (c st) as [[a|e] st1]; simpl in *; [|exact Hc].
  eapply quiet_trans; [exact Hc | apply Hk].
Qed.

Lemma keeps_try_finally {A} (body : M A) (fin : M unit) :
  keeps_quiet body -> keeps_quiet fin -> keeps_quiet (try_finally body fin).
Proof.
  intros Hb Hf st. unfold try_finally. specialize (Hb st).
  destruct (body st) as [r st1]. specialize (Hf st1).
  destruct (fin st1) as [[u|e] st2]; simpl in *; eapply quiet_trans; eauto.
Qed.

Lemma keeps_detached {A} (c : M A) : keeps_quiet c -> keeps_quiet (detached c).
Proof. intros Hc st. exact (Hc st). Qed.

Lemma keeps_for_of {A} (l : list A) (body : A -> M unit) :
  (forall x, keeps_quiet (body x)) -> keeps_quiet (for_of l body).
Proof.
  intros Hb. induction l as [|x l IH]; simpl.
  - apply keeps_ret.
  - apply keeps_bind; auto.
Qed.

Lemma keeps_get_mgr : keeps_quiet get_mgr.
Proof. intros st. apply quiet_refl. Qed.

Lemma keeps_get_world : keeps_quiet get_world.
Proof. intros st. apply quiet_refl. Qed.


Lemma keeps_modify_world (f : World -> World) :
  (forall w, awaitingStart (f w) = awaitingStart w) ->
  (forall w, nextPromise (f w) = nextPromise w) ->
  keeps_quiet (modify_world f).
Proof. intros H1 H2 st. split; simpl; auto. Qed.

Lemma keeps_modify_mgr (f : ServerManager -> ServerManager) :
  (forall m, _activeServers (f m) `sublist_of` _activeServers m) ->
  (forall m, _startingServerPromises (f m) = _startingServerPromises m) ->
  (forall m, _isStarted m = false -> _isStarted (f m) = false) ->
  (forall m, Forall terminated (_normalizedProjectPaths m) ->
             Forall terminated (_normalizedProjectPaths (f m))) ->
  keeps_quiet (modify_mgr f).
Proof. intros H1 H2 H3 H4 st. split; simpl; auto. Qed.

Lemma removelast_sublist {A} (l : list A) : removelast l `sublist_of` l.
Proof. rewrite removelast_firstn_len. apply sublist_take. Qed.

Lemma splice_indexOf_sublist {A} `{EqDecision A} (l : list A) (x : A) :
  js.splice_indexOf l x `sublist_of` l.
Proof.
  unfold js.splice_indexOf. destruct (js.indexOf l x).
  - apply sublist_delete.
  - apply removelast_sublist.
Qed.

Ltac quiet_world := apply keeps_modify_world; intros; reflexivity.
Ltac quiet_mgr :=
  apply keeps_modify_mgr; intros; simpl;
  first [ reflexivity | assumption | apply splice_indexOf_sublist | idtac ].


Lemma keeps_log c : keeps_quiet (log c).
Proof. unfold log. quiet_world. Qed.

Lemma keeps_call c : keeps_quiet (call c).
Proof.
  unfold call. apply keeps_bind; [apply keeps_log | intros _].
  apply keeps_bind; [apply keeps_get_world | intros w].
  destruct (faults w c); [apply keeps_throw | apply keeps_ret].
Qed.

Lemma keeps_atom_subscribe kind : keeps_quiet (atom_subscribe kind).
Proof. intros st. split; simpl; auto. Qed.

Lemma keeps_disposable_add d : keeps_quiet (disposable_add d).
Proof.
  unfold disposable_add. apply keeps_modify_mgr; intros m;
    destruct (disposed (_disposable m)); simpl; auto.
Qed.

Lemma keeps_disposable_dispose : keeps_quiet disposable_dispose.
Proof.
  intros st. unfold disposable_dispose.
  destruct (disposed (_disposable (mgr st))); split; simpl; auto.
Qed.

Lemma keeps_startListening : keeps_quiet startListening.
Proof.
  unfold startListening. apply keeps_bind; [apply keeps_get_mgr | intros m].
  destruct (negb (_isStarted m)); [|apply keeps_ret].
  repeat (first [ apply keeps_atom_subscribe | apply keeps_disposable_add
                | apply keeps_get_world
                | apply keeps_bind; [| intros ?] ]).
  - quiet_mgr.
  - destruct (hasOnDidChangeFiles _); [|apply keeps_ret].
    apply keeps_bind; [apply keeps_atom_subscribe | intros ?].
    apply keeps_disposable_add.
Qed.

Lemma keeps_stopListening : keeps_quiet stopListening.
Proof.
  unfold stopListening. apply keeps_bind; [apply keeps_get_mgr | intros m].
  destruct (_isStarted m); [|apply keeps_ret].
  apply keeps_bind; [apply keeps_disposable_dispose | intros _]. quiet_mgr.
Qed.

Lemma keeps_updateNormalizedProjectPaths : keeps_quiet updateNormalizedProjectPaths.
Proof.
  unfold updateNormalizedProjectPaths.
  apply keeps_bind; [apply keeps_get_world | intros w].
  apply keeps_modify_mgr; intros m; simpl; auto.
  intros _. apply Forall_forall. intros p Hp.
  apply list_elem_of_fmap in Hp as [d [-> _]]. apply normalizePath_endsWith_sep.
Qed.

Lemma keeps_exitServer server : keeps_quiet (exitServer server).
Proof.
  unfold exitServer. apply keeps_bind; [| intros _; apply keeps_log].
  apply keeps_try_finally; [| apply keeps_call].
  apply keeps_bind; [apply keeps_get_world | intros w].
  destruct (isConnected w server); [| apply keeps_ret].
  apply keeps_bind; [apply keeps_call | intros _; apply keeps_call].
Qed.

Lemma keeps_stopServer_resume server : keeps_quiet (stopServer_resume server).
Proof.
  unfold stopServer_resume.
  apply keeps_bind; [quiet_mgr | intros _].
  apply keeps_bind; [apply keeps_exitServer | intros _]. quiet_mgr.
Qed.

Lemma keeps_stopServer server : keeps_quiet (stopServer server).
Proof.
  unfold stopServer.
  apply keeps_bind; [apply keeps_log | intros _].
  apply keeps_bind; [quiet_mgr | intros _].
  apply keeps_bind; [quiet_mgr | intros _].
  apply keeps_bind; [apply keeps_call | intros _].
  apply keeps_bind; [apply keeps_get_world | intros w].
  destruct (isConnected w server).
  - apply keeps_bind; [apply keeps_log | intros _].
    apply keeps_bind; [quiet_world | intros _]. apply keeps_ret.
  - apply keeps_bind; [apply keeps_stopServer_resume | intros _]. apply keeps_ret.
Qed.

Lemma keeps_map_stopServer_live ks : keeps_quiet (map_stopServer_live ks).
Proof.
  induction ks as [|k ks IH]; simpl; [apply keeps_ret|].
  apply keeps_bind; [apply keeps_get_mgr | intros m].
  destruct (_activeServers m !! k); [|exact IH].
  apply keeps_bind; [apply keeps_stopServer | intros _; exact IH].
Qed.

Lemma keeps_clearTimeout id : keeps_quiet (clearTimeout id).
Proof.
  unfold clearTimeout. apply keeps_bind; [apply keeps_log | intros _]. quiet_world.
Qed.

Lemma keeps_stopAllServers : keeps_quiet stopAllServers.
Proof.
  unfold stopAllServers. apply keeps_bind; [apply keeps_get_mgr | intros m].
  apply keeps_bind.
  - apply keeps_for_of. intros [projectPath restartCounter].
    apply keeps_bind; [apply keeps_clearTimeout | intros _]. quiet_mgr.
  - intros _. apply keeps_bind; [apply keeps_get_mgr | intros m'].
    apply keeps_map_stopServer_live.
Qed.

Lemma keeps_restartAllServers : keeps_quiet restartAllServers.
Proof.
  unfold restartAllServers.
  apply keeps_bind; [apply keeps_stopListening | intros _; apply keeps_stopAllServers].
Qed.

Lemma keeps_restartAllServers_resume : keeps_quiet restartAllServers_resume.
Proof.
  unfold restartAllServers_resume.
  apply keeps_bind; [quiet_mgr | intros _; apply keeps_startListening].
Qed.

Lemma keeps_setTimeout projectPath ms : keeps_quiet (setTimeout projectPath ms).
Proof. intros st. split; simpl; auto. Qed.

Lemma keeps_hasServerReachedRestartLimit server :
  keeps_quiet (hasServerReachedRestartLimit server).
Proof.
  unfold hasServerReachedRestartLimit.
  apply keeps_bind; [apply keeps_get_mgr | intros m].
  apply keeps_bind.
  - destruct (_restartCounterPerProject m !! projectPath server); [apply keeps_ret|].
    apply keeps_bind; [apply keeps_setTimeout | intros id].
    apply keeps_bind; [quiet_mgr | intros _; apply keeps_ret].
  - intros rc. apply keeps_bind; [quiet_mgr | intros _; apply keeps_ret].
Qed.

Lemma keeps_advance_clock t : keeps_quiet (advance_clock t).
Proof.
  unfold advance_clock. apply keeps_bind; [apply keeps_get_world | intros w].
  apply keeps_bind; [quiet_world | intros _].
  apply keeps_for_of. intros x. unfold timer_callback. quiet_mgr.
Qed.

Lemma keeps_handleTextEditor_resume editor server :
  keeps_quiet (_handleTextEditor_resume editor server).
Proof.
  unfold _handleTextEditor_resume. destruct server; [|apply keeps_ret].
  apply keeps_bind; [quiet_mgr | intros _].
  apply keeps_bind; [apply keeps_atom_subscribe | intros d].
  apply keeps_disposable_add.
Qed.

Lemma keeps_settle_shutdown server k :
  keeps_quiet k -> keeps_quiet (settle_shutdown server k).
Proof.
  intros Hk. unfold settle_shutdown.
  apply keeps_bind; [apply keeps_get_world | intros w].
  destruct (bool_decide _); [|apply keeps_ret].
  apply keeps_bind; [quiet_world | intros _]. now apply keeps_detached.
Qed.


Lemma handle_quiet (e : event) :
  starts_nothing e = true -> keeps_quiet (handle e).
Proof.
  destruct e; simpl; try discriminate; intros _;
    try apply keeps_detached;
    auto using keeps_handleTextEditor_resume, keeps_stopServer,
      keeps_settle_shutdown, keeps_stopServer_resume, keeps_exitServer,
      keeps_hasServerReachedRestartLimit, keeps_advance_clock,
      keeps_stopAllServers, keeps_restartAllServers,
      keeps_restartAllServers_resume, keeps_startListening,
      keeps_stopListening, keeps_updateNormalizedProjectPaths.
  - quiet_mgr.
  - apply keeps_settle_shutdown, keeps_ret.
  - quiet_world.
  - quiet_world.
Qed.

(** ** One server and one start per project path *)





Lemma filter_none {A} (P : A -> Prop) `{forall x, Decision (P x)} (l : list A) :
  (forall x, x ∈ l -> ¬ P x) -> filter P l = [].
Proof.
  induction l as [|x l IH]; intros Hl; [reflexivity|].
  rewrite filter_cons. destruct (decide (P x)) as [Hx|_].
  - exfalso. apply (Hl x); [apply elem_of_cons; now left | exact Hx].
  - apply IH. intros y Hy. apply Hl. apply elem_of_cons. now right.
Qed.

Lemma filter_all {A} (P : A -> Prop) `{forall x, Decision (P x)} (l : list A) :
  (forall x, x ∈ l -> P x) -> filter P l = l.
Proof.
  induction l as [|x l IH]; intros Hl; [reflexivity|].
  rewrite filter_cons. destruct (decide (P x)) as [_|Hx].
  - f_equal. apply IH. intros y Hy. apply Hl. apply elem_of_cons. now right.
  - exfalso. apply Hx, Hl. apply elem_of_cons. now left.
Qed.


(** *** What the segments of a start do to the state *)

Lemma startServer_state P st :
  let st' := snd (startServer P st) in
  let p := nextPromise (world st) in
  fst (startServer P st) = Return p ∧
  _activeServers (mgr st') = _activeServers (mgr st) ∧
  _startingServerPromises (mgr st') = <[P := p]> (_startingServerPromises (mgr st)) ∧
  awaitingStart (world st') = awaitingStart (world st) ++ [(p, P)] ∧
  nextPromise (world st') = S p ∧
  calls (world st') =
    calls (world st) ++ [LoggerDebug (ServerStarting P)] ++ [StartServer P p] ∧
  _normalizedProjectPaths (mgr st') = _normalizedProjectPaths (mgr st) ∧
  _isStarted (mgr st') = _isStarted (mgr st) ∧
  _editorToServer (mgr st') = _editorToServer (mgr st) ∧
  _startForEditor (mgr st') = _startForEditor (mgr st).
Proof. simpl. rewrite <- app_assoc. repeat split. Qed.

Lemma startServer_fulfilled_state P s st :
  let st' := snd (startServer_fulfilled P s st) in
  fst (startServer_fulfilled P s st) = Return s ∧
  _activeServers (mgr st') = _activeServers (mgr st) ++ [s] ∧
  _startingServerPromises (mgr st') = delete P (_startingServerPromises (mgr st)) ∧
  awaitingStart (world st') = awaitingStart (world st) ∧
  nextPromise (world st') = nextPromise (world st) ∧
  _normalizedProjectPaths (mgr st') = _normalizedProjectPaths (mgr st) ∧
  _isStarted (mgr st') = _isStarted (mgr st) ∧
  _editorToServer (mgr st') = _editorToServer (mgr st).
Proof. simpl. repeat split. Qed.

Lemma startServer_rejected_state P e st :
  let st' := snd (startServer_rejected P e st) in
  fst (startServer_rejected P e st) = Throw e ∧
  mgr st' =
    set_startingServerPromises (delete P (_startingServerPromises (mgr st))) (mgr st) ∧
  world st' = world st.
Proof. simpl. repeat split. Qed.

Lemma getServer_cases textEditor shouldStart st :
  match determineProjectPath (mgr st) textEditor with
  | None => getServer textEditor shouldStart st = (Return (resolved None), st)
  | Some P =>
      match List.find (fun s => String.eqb P (projectPath s))
                      (_activeServers (mgr st)) with
      | Some s => getServer textEditor shouldStart st = (Return (resolved (Some s)), st)
      | None =>
          match _startingServerPromises (mgr st) !! P with
          | Some p => getServer textEditor shouldStart st = (Return (settlesWith p), st)
          | None =>
              if shouldStart && _startForEditor (mgr st) textEditor then
                getServer textEditor shouldStart st =
                  (Return (settlesWith (nextPromise (world st))),
                   snd (startServer P st))
              else getServer textEditor shouldStart st = (Return (resolved None), st)
          end
      end
  end.
Proof.
  unfold getServer, mbind, M_bind, get_mgr.
  destruct (determineProjectPath (mgr st) textEditor) as [P|]; [|reflexivity].
  destruct (List.find _ _) as [s|]; [reflexivity|].
  destruct (_startingServerPromises (mgr st) !! P) as [p|]; [reflexivity|].
  destruct (shouldStart && _startForEditor (mgr st) textEditor); reflexivity.
Qed.






Section Settled.

Variable st : State.
Variable p : Promise.
Variable P : string.
Hypothesis Hc : consistent st.
Hypothesis Hframe : (p, P) ∈ awaitingStart (world st).

Let rest := filter (fun f : Promise * string => fst f ≠ p) (awaitingStart (world st)).






End Settled.




Lemma new_ServerManager_consistent startForEditor watched dirs onDidChangeFiles faults :
  consistent
    (new_ServerManager startForEditor watched (new_World dirs onDidChangeFiles faults)).
Proof.
  split; unfold serving; simpl; auto; try (intros; exfalso; eapply not_elem_of_nil; eauto; fail).
  - intros P p. rewrite lookup_empty. split; [discriminate|].
    intros H. exfalso. eapply not_elem_of_nil; eauto.
  - constructor.
  - apply Forall_forall. intros p Hp.
    apply list_elem_of_fmap in Hp as [d [-> _]]. apply normalizePath_endsWith_sep.
Qed.

(** *** Coalescing of the calls of [getServer] *)









(** ** Resolution of an editor *)

Lemma settle_start_preserves (Φ : State -> Prop) p k :
  (forall st l, Φ st -> Φ (mkState (mgr st) (set_awaitingStart l (world st)))) ->
  (forall P st, Φ st -> Φ (snd (k P st))) ->
  forall st, Φ st -> Φ (snd (settle_start p k st)).
Proof.
  intros Hw Hk st HΦ. unfold settle_start, mbind, M_bind, get_world, modify_world.
  simpl. generalize (filter (fun f : Promise * string => fst f = p)
                       (awaitingStart (world st))). intros frames.
  specialize (Hw st (filter (fun f : Promise * string => fst f ≠ p)
                       (awaitingStart (world st))) HΦ).
  revert Hw. generalize (mkState (mgr st)
    (set_awaitingStart (filter (fun f : Promise * string => fst f ≠ p)
                          (awaitingStart (world st))) (world st))).
  induction frames as [|f frames IH]; intros st1 H1; simpl; [exact H1|].
  unfold mbind, M_bind, detached. simpl. apply IH, Hk, H1.
Qed.

Lemma getServer_roots textEditor shouldStart st :
  _normalizedProjectPaths (mgr (snd (getServer textEditor shouldStart st)))
  = _normalizedProjectPaths (mgr st).
Proof.
  pose proof (getServer_cases textEditor shouldStart st) as H.
  destruct (determineProjectPath _ _); [|now rewrite H].
  destruct (List.find _ _); [now rewrite H|].
  destruct (_ !! _); [now rewrite H|].
  destruct (_ && _); now rewrite H.
Qed.

(** Project roots end with the separator in every state of a run. *)
Lemma step_roots st e :
  Forall terminated (_normalizedProjectPaths (mgr st)) ->
  Forall terminated (_normalizedProjectPaths (mgr (step st e))).
Proof.
  intros Hr. unfold step. destruct (starts_nothing e) eqn:Hq.
  { now apply (quiet_roots _ _ (handle_quiet e Hq st)). }
  destruct e; try discriminate; simpl handle.
  - unfold detached. simpl snd. now rewrite getServer_roots.
  - exact Hr.
  - now apply settle_start_preserves.
  - now apply settle_start_preserves.
Qed.

Lemma run_roots events st :
  Forall terminated (_normalizedProjectPaths (mgr st)) ->
  Forall terminated (_normalizedProjectPaths (mgr (run events st))).
Proof.
  revert st. induction events as [|e events IH]; intros st Hr; [exact Hr|].
  simpl. now apply IH, step_roots.
Qed.

Lemma new_ServerManager_roots startForEditor watched w :
  Forall terminated
    (_normalizedProjectPaths (mgr (new_ServerManager startForEditor watched w))).
Proof.
  apply Forall_forall. intros p Hp. simpl in Hp.
  apply list_elem_of_fmap in Hp as [d [-> _]]. apply normalizePath_endsWith_sep.
Qed.

Lemma terminated_nonempty d : terminated d -> String.eqb d "" = false.
Proof. destruct d; [discriminate | reflexivity]. Qed.

Lemma find_first_match (roots : list string) filePath d :
  first_match roots filePath d ->
  List.find (fun d => js.startsWith filePath d) roots = Some d.
Proof.
  intros [i (Hi & Hd & Hbefore)]. revert i Hi Hbefore.
  induction roots as [|r roots IH]; intros i Hi Hbefore; [discriminate|].
  destruct i as [|i]; simpl in *.
  - injection Hi as ->. now rewrite Hd.
  - rewrite (Hbefore 0 r) by (simpl; auto with lia).
    apply (IH i Hi). intros j d' Hj Hj'. apply (Hbefore (S j) d'); [lia | exact Hj'].
Qed.

Lemma find_no_match (roots : list string) filePath :
  Forall (fun d => js.startsWith filePath d = false) roots ->
  List.find (fun d => js.startsWith filePath d) roots = None.
Proof. induction 1 as [|r roots Hr _ IH]; simpl; [reflexivity | now rewrite Hr]. Qed.

Lemma find_serving_head P st s others :
  serving P st = s :: others ->
  List.find (fun s => String.eqb P (projectPath s)) (_activeServers (mgr st)) = Some s.
Proof.
  unfold serving. induction (_activeServers (mgr st)) as [|a l IH]; [discriminate|].
  rewrite filter_cons. simpl. destruct (decide (projectPath a = P)) as [E|Hne].
  - intros [= -> _]. subst P. now rewrite String.eqb_refl.
  - intros H. destruct (String.eqb_spec P (projectPath a)); [congruence | auto].
Qed.

(** C2 (amended): in every state of the manager, [getServer] answers null
    for an editor without a path and for a path that no project root
    prefixes; otherwise the editor is resolved to the first root, in the
    order of registration, that is a prefix of its path (which need not be
    the longest one), and when that root has an active instance, the first
    such instance is returned at once and nothing changes. *)
Theorem getServer_resolves_first_root
    startForEditor watched dirs onDidChangeFiles faults events
    textEditor shouldStart :
  let st :=
    run events
      (new_ServerManager startForEditor watched
         (new_World dirs onDidChangeFiles faults)) in
  let roots := _normalizedProjectPaths (mgr st) in
  match getPath textEditor with
  | None => getServer textEditor shouldStart st = (Return (resolved None), st)
  | Some filePath =>
      (Forall (fun d => js.startsWith filePath d = false) roots ->
       getServer textEditor shouldStart st = (Return (resolved None), st)) ∧
      (forall d,
          first_match roots filePath d ->
          determineProjectPath (mgr st) textEditor = Some d ∧
          forall s others,
            serving d st = s :: others ->
            getServer textEditor shouldStart st = (Return (resolved (Some s)), st))
  end.
Proof.
  intros st roots.
  assert (Hr : Forall terminated roots).
  { apply run_roots, new_ServerManager_roots. }
  pose proof (getServer_cases textEditor shouldStart st) as H.
  unfold determineProjectPath in *. fold roots in H |- *.
  destruct (getPath textEditor) as [filePath|]; [|exact H].
  split.
  - intros Hnone. now rewrite (find_no_match _ _ Hnone) in H.
  - intros d Hd. pose proof (find_first_match _ _ _ Hd) as Hf.
    rewrite Hf in H |- *.
    assert (Hne : String.eqb d "" = false).
    { apply terminated_nonempty. rewrite Forall_forall in Hr. apply Hr.
      apply find_some in Hf as [Hin _]. now apply list_elem_of_In. }
    rewrite Hne in H |- *. split; [reflexivity|].
    intros s others Hs. now rewrite (find_serving_head _ _ _ _ Hs) in H.
Qed.

Lemma getServer_resolves_first_root_witness :
  let st :=
    run [call_getServer Example.editor1 true; start_fulfilled 0 Example.server0]
        Example.manager in
  getServer Example.editor2 false st = (Return (resolved (Some Example.server0)), st)
  ∧ getServer (mkTextEditor 3 None) true st = (Return (resolved None), st)
  ∧ getServer (mkTextEditor 4 (Some "/elsewhere/x.txt")) true st
    = (Return (resolved None), st).
Proof.
  intros st.
  pose proof (getServer_resolves_first_root Example.always Example.always ["/p"] true
                Example.no_fault
                [call_getServer Example.editor1 true; start_fulfilled 0 Example.server0])
    as H.
  split; [|split].
  - destruct (H Example.editor2 false) as [_ Hfirst].
    destruct (Hfirst "/p/") as [_ Hserver].
    + exists 0. repeat split. intros j d' Hj. lia.
    + apply (Hserver Example.server0 []). reflexivity.
  - exact (H (mkTextEditor 3 None) true).
  - destruct (H (mkTextEditor 4 (Some "/elsewhere/x.txt")) true) as [Hnone _].
    apply Hnone. repeat constructor.
Defined.

(** C2, as stated, fails: with the roots [/a/] and [/a/b/] registered in this
    order, a file under [/a/b/] is resolved to [/a/], the first prefix, and
    the server of [/a/] is returned, although [/a/b/] is the longest
    matching root and has an active server of its own. *)
Lemma first_match_is_not_longest_match :
  let serverAB := mkActiveServer 0 "/a/b/" 100 in
  let serverA := mkActiveServer 1 "/a/" 101 in
  let textEditor := mkTextEditor 1 (Some "/a/b/c.txt") in
  let st :=
    run [call_getServer textEditor true; start_fulfilled 0 serverAB;
         directories_become ["/a"; "/a/b"]; call_updateNormalizedProjectPaths;
         call_getServer (mkTextEditor 2 (Some "/a/x.txt")) true;
         start_fulfilled 1 serverA]
        (new_ServerManager Example.always Example.always
           (new_World ["/a/b"] true Example.no_fault)) in
  _normalizedProjectPaths (mgr st) = ["/a/"; "/a/b/"] ∧
  _activeServers (mgr st) = [serverAB; serverA] ∧
  determineProjectPath (mgr st) textEditor = Some "/a/" ∧
  fst (getServer textEditor false st) = Return (resolved (Some serverA)) ∧
  longest_match (_normalizedProjectPaths (mgr st)) "/a/b/c.txt" "/a/b/" ∧
  ¬ longest_match (_normalizedProjectPaths (mgr st)) "/a/b/c.txt" "/a/".
Proof.
  intros serverAB serverA textEditor st.
  assert (Hroots : _normalizedProjectPaths (mgr st) = ["/a/"; "/a/b/"]) by reflexivity.
  split; [exact Hroots|]. split; [reflexivity|]. split; [reflexivity|].
  split; [reflexivity|]. rewrite Hroots. split.
  - split; [apply elem_of_cons; right; apply elem_of_cons; now left|].
    split; [reflexivity|]. intros d' Hd' _.
    repeat (apply elem_of_cons in Hd' as [->|Hd']); [simpl; lia | simpl; lia | inversion Hd'].
  - intros (_ & _ & Hmax).
    assert (H : String.length "/a/b/" ≤ String.length "/a/").
    { apply Hmax; [apply elem_of_cons; right; apply elem_of_cons; now left | reflexivity]. }
    simpl in H. lia.
Qed.

(** ** The restart limit *)

Lemma timer_callbacks_state (due : list (nat * Z * string)) st :
  snd (for_of due (fun x => timer_callback (snd x)) st) =
  mkState
    (set_restartCounterPerProject
       (fold_left (fun m x => delete (snd x) m) due (_restartCounterPerProject (mgr st)))
       (mgr st))
    (world st)
  ∧ fst (for_of due (fun x => timer_callback (snd x)) st) = Return tt.
Proof.
  revert st. induction due as [|x due IH]; intros st; simpl.
  - now destruct st as [[] w].
  - unfold mbind, M_bind.
    change (timer_callback (snd x) st) with
      (Return tt,
       mkState
         (set_restartCounterPerProject
            (delete (snd x) (_restartCounterPerProject (mgr st))) (mgr st))
         (world st)).
    cbv iota beta.
    destruct (IH (mkState
      (set_restartCounterPerProject
         (delete (snd x) (_restartCounterPerProject (mgr st))) (mgr st))
      (world st))) as [E1 E2].
    split; [rewrite E1; reflexivity | exact E2].
Qed.

Lemma advance_clock_state t st :
  let t' := Z.max (now (world st)) t in
  let due := filter (fun x : nat * Z * string => (snd (fst x) <= t')%Z)
               (timers (world st)) in
  advance_clock t st =
  (Return tt,
   mkState
     (set_restartCounterPerProject
        (fold_left (fun m x => delete (snd x) m) due
           (_restartCounterPerProject (mgr st)))
        (mgr st))
     (set_now t'
        (set_timers
           (filter (fun x : nat * Z * string => ¬ (snd (fst x) <= t')%Z)
              (timers (world st)))
           (world st)))).
Proof.
  intros t' due. unfold advance_clock, mbind, M_bind, get_world, modify_world.
  simpl.
  match goal with |- for_of ?d ?f ?s = _ =>
    destruct (timer_callbacks_state d s) as [E1 E2];
    destruct (for_of d f s) as [r s'] end.
  simpl in *. subst. reflexivity.
Qed.

Lemma fold_delete_other {V} (l : list (nat * Z * string)) (m : gmap string V) P :
  Forall (fun x => snd x ≠ P) l ->
  fold_left (fun m x => delete (snd x) m) l m !! P = m !! P.
Proof.
  revert m. induction l as [|x l IH]; intros m Hl; [reflexivity|].
  apply Forall_cons in Hl as [Hx Hl]. simpl. rewrite IH by exact Hl.
  now apply lookup_delete_ne.
Qed.

Lemma fold_delete_gone {V} (l : list (nat * Z * string)) (m : gmap string V) P :
  m !! P = None ∨ (exists x, x ∈ l ∧ snd x = P) ->
  fold_left (fun m x => delete (snd x) m) l m !! P = None.
Proof.
  revert m. induction l as [|x l IH]; intros m [Hm|[y [Hy E]]]; simpl.
  - exact Hm.
  - inversion Hy.
  - apply IH. left. destruct (decide (snd x = P)) as [->|Hne].
    + apply lookup_delete_eq.
    + now rewrite lookup_delete_ne.
  - apply elem_of_cons in Hy as [->|Hy].
    + apply IH. left. rewrite E. apply lookup_delete_eq.
    + apply IH. right. eauto.
Qed.

(** The first attempt of a window: the counter is created with its timer. *)
Lemma first_attempt server st :
  _restartCounterPerProject (mgr st) !! projectPath server = None ->
  exists st',
    hasServerReachedRestartLimit server st = (Return false, st') ∧
    _restartCounterPerProject (mgr st') !! projectPath server
      = Some (mkRestartCounter 1 (nextTimer (world st))) ∧
    timers (world st') =
      timers (world st) ++
      [(nextTimer (world st), (now (world st) + 3 * 60 * 1000)%Z, projectPath server)] ∧
    now (world st') = now (world st).
Proof.
  intros Hnone. eexists. unfold hasServerReachedRestartLimit, mbind, M_bind, get_mgr.
  simpl. rewrite Hnone. simpl. split; [reflexivity|]. simpl.
  rewrite lookup_insert_eq. auto.
Qed.

(** A later attempt: the counter goes up by one; no timer is set. *)
Lemma later_attempt server st n id :
  _restartCounterPerProject (mgr st) !! projectPath server
    = Some (mkRestartCounter n id) ->
  exists st',
    hasServerReachedRestartLimit server st = (Return (5 <? S n)%nat, st') ∧
    _restartCounterPerProject (mgr st') !! projectPath server
      = Some (mkRestartCounter (S n) id) ∧
    world st' = world st.
Proof.
  intros Hsome. eexists. unfold hasServerReachedRestartLimit, mbind, M_bind, get_mgr.
  simpl. rewrite Hsome. simpl. split; [reflexivity|]. simpl.
  rewrite lookup_insert_eq. auto.
Qed.

(** Inside the window the clock does not touch the counter of the path. *)
Lemma advance_clock_inside t D P st rc :
  (now (world st) < D)%Z -> (t < D)%Z ->
  _restartCounterPerProject (mgr st) !! P = Some rc ->
  Forall (fun x => snd x = P -> snd (fst x) = D) (timers (world st)) ->
  let st' := snd (advance_clock t st) in
  _restartCounterPerProject (mgr st') !! P = Some rc ∧
  (now (world st') < D)%Z ∧
  Forall (fun x => snd x = P -> snd (fst x) = D) (timers (world st')) ∧
  nextTimer (world st') = nextTimer (world st) ∧
  forall x, x ∈ timers (world st) -> snd x = P -> x ∈ timers (world st').
Proof.
  intros Hnow Ht Hrc Htimers st'. subst st'. rewrite advance_clock_state. simpl.
  rewrite Forall_forall in Htimers.
  split; [|split; [lia|split; [|split; [reflexivity|]]]].
  - rewrite fold_delete_other; [exact Hrc|].
    apply Forall_forall. intros x Hx E.
    apply list_elem_of_filter in Hx as [Hdue Hx].
    specialize (Htimers x Hx E). lia.
  - apply Forall_forall. intros x Hx. apply list_elem_of_filter in Hx as [_ Hx]. auto.
  - intros x Hx E. apply list_elem_of_filter. split; [|exact Hx].
    specialize (Htimers x Hx E). lia.
Qed.

Lemma attempts_inside server later :
  forall st n id D,
    (now (world st) < D)%Z ->
    Forall (fun t => (t < D)%Z) later ->
    _restartCounterPerProject (mgr st) !! projectPath server
      = Some (mkRestartCounter n id) ->
    Forall (fun x => snd x = projectPath server -> snd (fst x) = D)
      (timers (world st)) ->
    let st' := snd (attempts server later st) in
    fst (attempts server later st) = map limit_reached (seq (S n) (length later)) ∧
    _restartCounterPerProject (mgr st') !! projectPath server
      = Some (mkRestartCounter (n + length later) id) ∧
    (now (world st') < D)%Z ∧
    Forall (fun x => snd x = projectPath server -> snd (fst x) = D)
      (timers (world st')) ∧
    nextTimer (world st') = nextTimer (world st) ∧
    forall x, x ∈ timers (world st) -> snd x = projectPath server ->
              x ∈ timers (world st').
Proof.
  induction later as [|t later IH]; intros st n id D Hnow Hlater Hrc Htimers.
  - simpl. rewrite Nat.add_0_r. auto 10.
  - apply Forall_cons in Hlater as [Ht Hlater]. cbn [attempts].
    destruct (advance_clock_inside t D _ st _ Hnow Ht Hrc Htimers)
      as (Hrc1 & Hnow1 & Htimers1 & Hnext1 & Hkeep1).
    destruct (later_attempt server _ n id Hrc1) as (st2 & E2 & Hrc2 & Hw2).
    rewrite E2.
    specialize (IH st2 (S n) id D).
    rewrite Hw2 in IH. specialize (IH Hnow1 Hlater Hrc2 Htimers1).
    destruct (attempts server later st2) as [rs st3]. simpl in IH |- *.
    destruct IH as (Hres & Hrc3 & Hnow3 & Htimers3 & Hnext3 & Hkeep3).
    split; [now rewrite Hres|]. split; [rewrite Hrc3; do 2 f_equal; lia|].
    split; [exact Hnow3|]. split; [exact Htimers3|].
    split; [congruence|]. intros x Hx E. auto.
Qed.

(** Once the clock has reached the deadline, the counter of the path is
    gone and so are its timers. *)
Lemma advance_clock_expired t D P st x :
  (D <= t)%Z ->
  x ∈ timers (world st) -> snd x = P ->
  Forall (fun x => snd x = P -> snd (fst x) = D) (timers (world st)) ->
  let st' := snd (advance_clock t st) in
  _restartCounterPerProject (mgr st') !! P = None ∧
  Forall (fun x => snd x ≠ P) (timers (world st')).
Proof.
  intros Ht Hx E Htimers st'. subst st'. rewrite advance_clock_state. simpl.
  rewrite Forall_forall in Htimers. split.
  - apply fold_delete_gone. right. exists x. split; [|exact E].
    apply list_elem_of_filter. split; [|exact Hx].
    rewrite (Htimers x Hx E). lia.
  - apply Forall_forall. intros y Hy Ey.
    apply list_elem_of_filter in Hy as [Hnot Hy]. apply Hnot.
    rewrite (Htimers y Hy Ey). lia.
Qed.

Lemma advance_clock_absent t P st :
  _restartCounterPerProject (mgr st) !! P = None ->
  Forall (fun x => snd x ≠ P) (timers (world st)) ->
  let st' := snd (advance_clock t st) in
  _restartCounterPerProject (mgr st') !! P = None ∧
  Forall (fun x => snd x ≠ P) (timers (world st')) ∧
  now (world st') = Z.max (now (world st)) t ∧
  nextTimer (world st') = nextTimer (world st).
Proof.
  intros Hnone Htimers st'. subst st'. rewrite advance_clock_state. simpl.
  split; [|split; [|split; reflexivity]].
  - apply fold_delete_gone. now left.
  - rewrite Forall_forall in Htimers. apply Forall_forall.
    intros x Hx. apply list_elem_of_filter in Hx as [_ Hx]. auto.
Qed.

(** C3: from a state in which the project path has neither a restart counter
    nor a decay timer, the first call of [hasServerReachedRestartLimit] (at
    time [T1]) creates the counter at zero with a timer due 3 minutes later,
    and every call counts: as long as the calls come before that deadline,
    the [k]-th one answers [false] for [k] from 1 to 5 and [true] from the
    6th on, and the counter holds [k].  Once the clock has reached the
    deadline the counter and its timer are gone, and the next call is a first
    call again: it answers [false] and leaves the counter at 1. *)
Theorem restart_limit_within_window server st t1 later :
  let P := projectPath server in
  let T1 := Z.max (now (world st)) t1 in
  let D := (T1 + 3 * 60 * 1000)%Z in
  _restartCounterPerProject (mgr st) !! P = None ->
  Forall (fun x => snd x ≠ P) (timers (world st)) ->
  Forall (fun t => (t < D)%Z) later ->
  let st' := snd (attempts server (t1 :: later) st) in
  fst (attempts server (t1 :: later) st)
    = map limit_reached (seq 1 (S (length later))) ∧
  _restartCounterPerProject (mgr st') !! P
    = Some (mkRestartCounter (S (length later)) (nextTimer (world st))) ∧
  (nextTimer (world st), D, P) ∈ timers (world st') ∧
  forall t, (D <= t)%Z ->
    let expired := snd (advance_clock t st') in
    _restartCounterPerProject (mgr expired) !! P = None ∧
    Forall (fun x => snd x ≠ P) (timers (world expired)) ∧
    exists st3,
      hasServerReachedRestartLimit server expired = (Return false, st3) ∧
      _restartCounterPerProject (mgr st3) !! P
        = Some (mkRestartCounter 1 (nextTimer (world expired))).
Proof.
  intros P T1 D Hnone Htimers Hlater. cbn [attempts].
  destruct (advance_clock_absent t1 P st Hnone Htimers)
    as (Hnone1 & Htimers1 & Hnow1 & Hnext1).
  set (st1 := snd (advance_clock t1 st)) in *.
  destruct (first_attempt server st1 Hnone1) as (st2 & E2 & Hrc2 & Ht2 & Hnow2).
  rewrite E2. rewrite Hnext1 in Hrc2, Ht2. rewrite Hnow1 in Ht2.
  fold T1 in Ht2, Hnow1. fold D in Ht2. fold P in Hrc2, Ht2.
  assert (HD : Forall (fun x => snd x = P -> snd (fst x) = D) (timers (world st2))).
  { rewrite Ht2. apply Forall_app. split.
    - eapply Forall_impl; [exact Htimers1|]. intros x Hx E. congruence.
    - apply Forall_singleton. reflexivity. }
  assert (Hnow : (now (world st2) < D)%Z) by (rewrite Hnow2, Hnow1; unfold D; lia).
  pose proof (attempts_inside server later st2 1 _ D Hnow Hlater Hrc2 HD) as Hin.
  destruct (attempts server later st2) as [rs st3]. simpl in Hin. cbn [fst snd].
  destruct Hin as (Hres & Hrc3 & Hnow3 & Htimers3 & Hnext3 & Hkeep3).
  assert (Hmine : (nextTimer (world st), D, P) ∈ timers (world st3)).
  { apply Hkeep3; [|reflexivity]. rewrite Ht2. apply elem_of_app. right.
    now apply list_elem_of_singleton. }
  split; [now rewrite Hres|]. split; [exact Hrc3|]. split; [exact Hmine|].
  intros t Ht. cbv zeta.
  destruct (advance_clock_expired t D P st3 _ Ht Hmine eq_refl Htimers3) as [Hgone Hnot].
  split; [exact Hgone|]. split; [exact Hnot|].
  destruct (first_attempt server _ Hgone) as (st4 & E4 & Hrc4 & _).
  exists st4. auto.
Qed.


Lemma restart_limit_within_window_witness :
  fst (attempts Example.server0 [0; 1000; 2000; 60000; 100000; 170000; 179999]%Z
         Example.manager)
    = [Return false; Return false; Return false; Return false; Return false;
       Return true; Return true].
Proof.
  refine (proj1 (restart_limit_within_window Example.server0 Example.manager 0
                   [1000; 2000; 60000; 100000; 170000; 179999]%Z _ _ _)).
  - reflexivity.
  - constructor.
  - repeat (constructor; [reflexivity|]). constructor.
Defined.

Example restart_limit_forgiven :
  let st := snd (attempts Example.server0 [0; 1; 2; 3; 4; 5; 6]%Z Example.manager) in
  fst (attempts Example.server0 [179999]%Z st) = [Return true] ∧
  fst (attempts Example.server0 [180000]%Z st) = [Return false].
Proof. split; reflexivity. Qed.

(** ** Stopping and exiting *)

Lemma exitServer_state server st :
  let w := world st in
  let st' := snd (exitServer server st) in
  fst (exitServer server st) = exit_outcome w server ∧
  mgr st' = mgr st ∧
  calls (world st') =
    calls w ++ polite_calls w server ++ [ProcessKill server] ++
    match exit_outcome w server with
    | Return _ => [LoggerDebug (ServerStopped (projectPath server) (pid server))]
    | Throw _ => []
    end ∧
  faults (world st') = faults w ∧
  closedConnections (world st') = closedConnections w ∧
  awaitingStart (world st') = awaitingStart w ∧
  awaitingShutdown (world st') = awaitingShutdown w.
Proof.
  unfold exitServer, exit_outcome, polite_calls, polite_fault, try_finally, call, log,
    mbind, M_bind, get_world, modify_world, throw, mret, M_ret.
  simpl.
  destruct (isConnected (world st) server); simpl;
    destruct (faults (world st) (ConnectionExit server)); simpl;
    destruct (faults (world st) (ConnectionDispose server)); simpl;
    destruct (faults (world st) (ProcessKill server)); simpl;
    repeat split; rewrite <- ?app_assoc; reflexivity.
Qed.

(** C5: [exitServer] calls [kill] on the process of the server whatever
    happens before: the calls it makes are the polite ones ([exit], then
    [dispose], only when the connection reports connected, and cut short by
    the first of them that throws), then [kill], then the log line when
    nothing threw.  An exception of the polite part is thrown on only after
    [kill] was called. *)
Theorem exitServer_always_kills server st :
  let w := world st in
  let st' := snd (exitServer server st) in
  (exists logged,
      calls (world st') =
        calls w ++ polite_calls w server ++ [ProcessKill server] ++ logged ∧
      (ProcessKill server ∉ polite_calls w server) ∧ (ProcessKill server ∉ logged)) ∧
  (isConnected w server = true ->
     polite_calls w server =
       [ConnectionExit server] ++
       (match faults w (ConnectionExit server) with
        | None => [ConnectionDispose server]
        | Some _ => []
        end)) ∧
  (isConnected w server = false -> polite_calls w server = []) ∧
  (forall e, polite_fault w server = Some e ->
     ProcessKill server ∈ calls (world st') ∧
     exists e', fst (exitServer server st) = Throw e').
Proof.
  intros w st'. destruct (exitServer_state server st) as (Hr & _ & Hcalls & _).
  fold w in Hr, Hcalls. fold st' in Hcalls.
  assert (Hpolite : ProcessKill server ∉ polite_calls w server).
  { unfold polite_calls. destruct (isConnected w server); [|apply not_elem_of_nil].
    destruct (faults w (ConnectionExit server)); intros H;
      repeat (apply elem_of_cons in H as [H|H]; [discriminate|]); inversion H. }
  split; [|split; [|split]].
  - eexists. split; [exact Hcalls|]. split; [exact Hpolite|].
    destruct (exit_outcome w server); intros H;
      repeat (apply elem_of_cons in H as [H|H]; [discriminate|]); inversion H.
  - intros Hc. unfold polite_calls. rewrite Hc.
    now destruct (faults w (ConnectionExit server)).
  - intros Hc. unfold polite_calls. now rewrite Hc.
  - intros e He. split.
    + rewrite Hcalls. apply elem_of_app. right. apply elem_of_app. right.
      apply elem_of_cons. now left.
    + rewrite Hr. unfold exit_outcome. rewrite He.
      destruct (faults w (ProcessKill server)); eauto.
Qed.

Example exitServer_kills_after_failed_exit :
  let faulty (c : Call) :=
    match c with ConnectionExit _ => Some "connection is disposed" | _ => None end in
  let st := mkState (mgr Example.manager) (new_World ["/p"] true faulty) in
  exitServer Example.server0 st =
    (Throw "connection is disposed",
     mkState (mgr st)
       (set_calls [ConnectionExit Example.server0; ProcessKill Example.server0]
          (world st))).
Proof. reflexivity. Qed.

(** *** [stopServer] *)

Lemma splice_indexOf_gone {A} `{EqDecision A} (l : list A) (x : A) :
  NoDup l -> x ∉ js.splice_indexOf l x.
Proof.
  intros Hnd. unfold js.splice_indexOf.
  assert (H : match js.indexOf l x with
              | Some i => x ∉ delete i l
              | None => x ∉ l
              end).
  { induction Hnd as [|y l Hy Hnd IH]; simpl; [apply not_elem_of_nil|].
    destruct (decide (y = x)) as [->|Hne]; [exact Hy|].
    destruct (js.indexOf l x) as [i|]; simpl.
    - intros Hin. apply elem_of_cons in Hin as [E|Hin]; [congruence | auto].
    - intros Hin. apply elem_of_cons in Hin as [E|Hin]; [congruence | auto]. }
  destruct (js.indexOf l x); [exact H|].
  intros Hin. apply H. eapply elem_of_sublist; [exact Hin | apply removelast_sublist].
Qed.

Lemma stopServer_resume_state server st :
  let st' := snd (stopServer_resume server st) in
  _activeServers (mgr st') = _activeServers (mgr st) ∧
  _editorToServer (mgr st') =
    filter (fun kv => snd kv ≠ server) (_editorToServer (mgr st)) ∧
  ProcessKill server ∈ calls (world st') ∧
  (fst (stopServer_resume server st) = Return tt ->
   _stoppingServers (mgr st') = js.splice_indexOf (_stoppingServers (mgr st)) server).
Proof.
  cbv zeta. destruct (stopServer_resume server st) as [r st'] eqn:E.
  unfold stopServer_resume, mbind, M_bind in E. unfold modify_mgr at 1 in E.
  set (st1 := mkState _ (world st)) in E.
  destruct (exitServer_state server st1) as (Hr & Hm & Hcalls & _).
  assert (Hkill : ProcessKill server ∈ calls (world (snd (exitServer server st1)))).
  { rewrite Hcalls. apply elem_of_app. right. apply elem_of_app. right.
    apply elem_of_cons. now left. }
  destruct (exitServer server st1) as [[[]|e] st2]; cbn [fst snd] in *;
    injection E as <- <-; cbn; rewrite Hm; cbn; repeat split; auto; discriminate.
Qed.

Lemma unmapped_after_filter server st st' :
  _editorToServer (mgr st') =
    filter (fun kv => snd kv ≠ server) (_editorToServer (mgr st)) ->
  unmapped server st'.
Proof.
  intros E editor s Hs. rewrite E in Hs.
  apply map_lookup_filter_Some in Hs as [_ Hne]. exact Hne.
Qed.

Lemma stopServer_state server st :
  let st1 := snd (stopServer server st) in
  _activeServers (mgr st1) = js.splice_indexOf (_activeServers (mgr st)) server ∧
  match fst (stopServer server st) with
  | Return Suspended =>
      isConnected (world st) server = true ∧
      ConnectionShutdown server ∈ calls (world st1) ∧
      server ∈ awaitingShutdown (world st1) ∧
      server ∈ _stoppingServers (mgr st1)
  | Return Completed =>
      isConnected (world st) server = false ∧
      unmapped server st1 ∧ ProcessKill server ∈ calls (world st1)
  | Throw _ => True
  end.
Proof.
  unfold stopServer, call, log, mbind, M_bind, modify_mgr, modify_world, get_world,
    throw, mret, M_ret.
  cbn [fst snd mgr world].
  destruct (faults _ (DisposableDispose server)); [split; reflexivity|].
  match goal with |- context [isConnected ?w server] =>
    change (isConnected w server) with (isConnected (world st) server) end.
  destruct (isConnected (world st) server) eqn:Hc.
  - cbn. split; [reflexivity|]. split; [reflexivity|].
    split; [|split]; apply elem_of_app; right; apply elem_of_cons; now left.
  - match goal with |- context [stopServer_resume server ?s] =>
      destruct (stopServer_resume_state server s) as (Ha & He & Hk & _);
      destruct (stopServer_resume server s) as [[[]|e] st2] end;
      cbn [fst snd] in *; rewrite Ha; (split; [reflexivity|]); [|exact I].
    split; [reflexivity|]. split; [|exact Hk].
    eapply unmapped_after_filter. exact He.
Qed.

Lemma getServer_active textEditor shouldStart st :
  _activeServers (mgr (snd (getServer textEditor shouldStart st)))
  = _activeServers (mgr st).
Proof.
  pose proof (getServer_cases textEditor shouldStart st) as H.
  destruct (determineProjectPath _ _); [|now rewrite H].
  destruct (List.find _ _); [now rewrite H|].
  destruct (_ !! _); [now rewrite H|].
  destruct (_ && _); now rewrite H.
Qed.

(** Only a fulfilled start brings an instance into the registry. *)
Lemma step_not_active server st e :
  starts_instance server e = false ->
  server ∉ _activeServers (mgr st) ->
  server ∉ _activeServers (mgr (step st e)).
Proof.
  intros Hne Hout. unfold step. destruct (starts_nothing e) eqn:Hq.
  { intros Hin. apply Hout. eapply elem_of_sublist; [exact Hin|].
    apply (quiet_active _ _ (handle_quiet e Hq st)). }
  destruct e; try discriminate; simpl handle.
  - unfold detached. cbn [snd]. now rewrite getServer_active.
  - exact Hout.
  - apply (settle_start_preserves (fun st => server ∉ _activeServers (mgr st)));
      [auto | | exact Hout].
    intros P st' Hst' Hin. cbn in Hin. apply elem_of_app in Hin as [Hin|Hin]; [auto|].
    apply list_elem_of_singleton in Hin. simpl in Hne.
    apply bool_decide_eq_false in Hne. congruence.
  - apply (settle_start_preserves (fun st => server ∉ _activeServers (mgr st)));
      [auto | auto | exact Hout].
Qed.

Lemma run_not_active server events st :
  forallb (fun e => negb (starts_instance server e)) events = true ->
  server ∉ _activeServers (mgr st) ->
  server ∉ _activeServers (mgr (run events st)).
Proof.
  revert st. induction events as [|e events IH]; intros st Hall Hout; [exact Hout|].
  simpl in Hall. apply andb_true_iff in Hall as [He Hall].
  simpl. apply IH; [exact Hall|]. apply step_not_active; [|exact Hout].
  now apply negb_true_iff.
Qed.

Lemma stopServer_resume_outcome server st :
  fst (stopServer_resume server st) = exit_outcome (world st) server.
Proof.
  unfold stopServer_resume, mbind, M_bind. unfold modify_mgr at 1.
  set (st1 := mkState _ (world st)).
  destruct (exitServer_state server st1) as (Hr & _).
  destruct (exitServer server st1) as [[[]|e] st2]; cbn [fst snd] in *; exact Hr.
Qed.

Lemma pair_with_fst {A B} (x : A * B) (a : A) : fst x = a -> x = (a, snd x).
Proof. intros <-. now destruct x. Qed.

(** A registry with one instance per path holds no instance twice. *)
Lemma consistent_NoDup st : consistent st -> NoDup (_activeServers (mgr st)).
Proof.
  intros Hc. pose proof (cons_active _ Hc) as Ha. unfold serving in Ha.
  induction (_activeServers (mgr st)) as [|s l IH]; [constructor|].
  constructor.
  - intros Hin. specialize (Ha (projectPath s)). rewrite filter_cons in Ha.
    destruct (decide (projectPath s = projectPath s)); [|congruence].
    assert (Hs : s ∈ filter (fun s0 => projectPath s0 = projectPath s) l)
      by (apply list_elem_of_filter; auto).
    destruct (filter _ l); [inversion Hs | simpl in Ha; lia].
  - apply IH. intros P. specialize (Ha P). rewrite filter_cons in Ha.
    destruct (decide _); simpl in Ha; lia.
Qed.

(** C4: in a registry that holds no instance twice, [stopServer] takes the
    server out of the active registry within the call itself, before the
    disposable is disposed and before anything is awaited.  When the
    connection is closed the call runs to its end at once; otherwise it is
    suspended on the shutdown request, and whatever happens meanwhile, short
    of a start promise being fulfilled with this very instance, the server
    stays out of the registry.  When the call completes, no editor is mapped
    to the server and [kill] has been called on its process. *)
Theorem stopServer_removes_server server st :
  NoDup (_activeServers (mgr st)) ->
  let st1 := snd (stopServer server st) in
  (server ∉ _activeServers (mgr st1)) ∧
  match fst (stopServer server st) with
  | Return Completed =>
      unmapped server st1 ∧ ProcessKill server ∈ calls (world st1)
  | Return Suspended =>
      ConnectionShutdown server ∈ calls (world st1) ∧
      server ∈ awaitingShutdown (world st1) ∧
      forall events,
        forallb (fun e => negb (starts_instance server e)) events = true ->
        let st2 := run events st1 in
        (server ∉ _activeServers (mgr st2)) ∧
        forall st3,
          stopServer_resume server st2 = (Return tt, st3) ->
          (server ∉ _activeServers (mgr st3)) ∧
          unmapped server st3 ∧
          ProcessKill server ∈ calls (world st3)
  | Throw _ => True
  end.
Proof.
  intros Hnd st1. destruct (stopServer_state server st) as [Ha Hcase].
  fold st1 in Ha, Hcase.
  assert (Hout : server ∉ _activeServers (mgr st1)).
  { rewrite Ha. now apply splice_indexOf_gone. }
  split; [exact Hout|].
  destruct (fst (stopServer server st)) as [[]|e]; [| |exact I].
  - destruct Hcase as (_ & Hu & Hk). auto.
  - destruct Hcase as (_ & Hs & Hw & _). split; [exact Hs|]. split; [exact Hw|].
    intros events Hall st2.
    assert (Hout2 : server ∉ _activeServers (mgr st2)) by now apply run_not_active.
    split; [exact Hout2|]. intros st3 E.
    destruct (stopServer_resume_state server st2) as (Ha3 & He3 & Hk3 & _).
    rewrite E in Ha3, He3, Hk3. cbn [snd] in *.
    split; [now rewrite Ha3|]. split; [|exact Hk3].
    eapply unmapped_after_filter. exact He3.
Qed.

Lemma stopServer_removes_server_witness :
  let st :=
    run [call_getServer Example.editor1 true; start_fulfilled 0 Example.server0;
         handleTextEditor_resumes Example.editor1 (Some Example.server0)]
        Example.manager in
  let st1 := snd (stopServer Example.server0 st) in
  let st2 := run [call_getServer Example.editor2 true;
                  call_stopServer Example.server0] st1 in
  let st3 := snd (stopServer_resume Example.server0 st2) in
  _activeServers (mgr st) = [Example.server0] ∧
  _editorToServer (mgr st) !! 1 = Some Example.server0 ∧
  (Example.server0 ∉ _activeServers (mgr st1)) ∧
  (Example.server0 ∉ _activeServers (mgr st3)) ∧
  unmapped Example.server0 st3 ∧
  ProcessKill Example.server0 ∈ calls (world st3).
Proof.
  intros st st1 st2 st3.
  assert (Hactive : _activeServers (mgr st) = [Example.server0]) by reflexivity.
  assert (Hnd : NoDup (_activeServers (mgr st))).
  { rewrite Hactive. apply NoDup_singleton. }
  pose proof (stopServer_removes_server Example.server0 st Hnd) as [Hout Hcase].
  assert (Hsus : fst (stopServer Example.server0 st) = Return Suspended)
    by reflexivity.
  rewrite Hsus in Hcase.
  destruct Hcase as (_ & _ & Hlater).
  destruct (Hlater [call_getServer Example.editor2 true;
                    call_stopServer Example.server0] eq_refl) as [_ Hdone].
  split; [exact Hactive|]. split; [reflexivity|]. split; [exact Hout|].
  assert (Hret : fst (stopServer_resume Example.server0 st2) = Return tt).
  { rewrite stopServer_resume_outcome. reflexivity. }
  apply Hdone. exact (pair_with_fst _ _ Hret).
Defined.

(** ** A start that fails *)

Lemma in_flight_nil_starting P st :
  consistent st -> in_flight P st = [] ->
  _startingServerPromises (mgr st) !! P = None.
Proof.
  intros Hc Hflight. destruct (_ !! P) as [q|] eqn:E; [|reflexivity].
  apply (cons_starting _ Hc) in E. exfalso.
  apply (filter_nil_not_elem_of _ _ (q, P) Hflight); [reflexivity | exact E].
Qed.

Lemma set_startingServerPromises_same m :
  set_startingServerPromises (_startingServerPromises m) m = m.
Proof. now destruct m. Qed.

Lemma set_awaitingStart_calls l w :
  calls (set_awaitingStart l w) = calls w.
Proof. reflexivity. Qed.

(** The frame of a start made in a consistent state is the only one of its
    promise, and taking it off gives back the frames there were. *)
Lemma fresh_frame_filter st P :
  consistent st ->
  let p := nextPromise (world st) in
  filter (fun f : Promise * string => fst f = p) (awaitingStart (world st) ++ [(p, P)])
    = [(p, P)] ∧
  filter (fun f : Promise * string => fst f ≠ p) (awaitingStart (world st) ++ [(p, P)])
    = awaitingStart (world st).
Proof.
  intros Hc p.
  assert (Hold : forall f, f ∈ awaitingStart (world st) -> fst f ≠ p).
  { intros [q Q] Hin. apply (cons_fresh _ Hc) in Hin. simpl. unfold p. lia. }
  rewrite !filter_app. split.
  - rewrite filter_none by (intros f Hf E; now apply (Hold f)).
    rewrite filter_cons. simpl. case_decide; [reflexivity | congruence].
  - rewrite filter_all by exact Hold.
    rewrite filter_cons. simpl. case_decide; [congruence|].
    apply app_nil_r.
Qed.

(** C6: [startServer] registers a pending start for the path; when the
    start promise is rejected, the [catch] clause takes the entry of the
    path away, throws the same error on to the caller and touches nothing
    else.  For a path with no active instance and no start in flight, a start
    followed by its rejection leaves the fields of the manager as they were:
    the path has no active instance and no pending start, and a new
    [startServer] for it invokes the start function again. *)
Theorem startServer_rejection_leaves_path_absent P e st :
  consistent st ->
  serving P st = [] ->
  in_flight P st = [] ->
  let p := nextPromise (world st) in
  let st1 := step st (call_startServer P) in
  let st3 := step st1 (start_rejected p e) in
  let st4 := step st3 (call_startServer P) in
  (_startingServerPromises (mgr st1) !! P = Some p ∧ in_flight P st1 = [(p, P)]) ∧
  (forall st2,
      let st2' := snd (startServer_rejected P e st2) in
      fst (startServer_rejected P e st2) = Throw e ∧
      mgr st2' =
        set_startingServerPromises
          (delete P (_startingServerPromises (mgr st2))) (mgr st2) ∧
      world st2' = world st2 ∧
      _startingServerPromises (mgr st2') !! P = None ∧
      serving P st2' = serving P st2) ∧
  (mgr st3 = mgr st ∧
   awaitingStart (world st3) = awaitingStart (world st) ∧
   serving P st3 = [] ∧ in_flight P st3 = [] ∧
   _startingServerPromises (mgr st3) !! P = None) ∧
  (_startingServerPromises (mgr st4) !! P = Some (nextPromise (world st3)) ∧
   StartServer P (nextPromise (world st3)) ∈ calls (world st4)).
Proof.
  intros Hc Hserve Hflight p st1 st3 st4.
  pose proof (in_flight_nil_starting P st Hc Hflight) as Hnone.
  destruct (fresh_frame_filter st P Hc) as [Hmine Hrest]. fold p in Hmine, Hrest.
  assert (E3 : st3 =
    mkState (mgr st)
      (set_awaitingStart (awaitingStart (world st)) (world st1))).
  { unfold st3, st1, step, handle, settle_start, detached, mbind, M_bind,
      get_world, modify_world.
    cbn [fst snd world mgr startServer awaitingStart set_awaitingStart].
    change (awaitingStart (world (snd (startServer P st))))
      with (awaitingStart (world st) ++ [(p, P)]).
    rewrite Hmine, Hrest. cbn [for_of]. unfold mbind, M_bind, mret, M_ret. simpl.
    rewrite delete_insert_id by exact Hnone.
    f_equal. now destruct (mgr st). }
  destruct (startServer_state P st) as (_ & _ & Es & Ew & _).
  assert (E1 : st1 = snd (startServer P st)) by reflexivity.
  split; [|split; [|split]].
  - rewrite E1. split; [rewrite Es; apply lookup_insert_eq|].
    unfold in_flight. rewrite Ew, filter_app. fold (in_flight P st).
    rewrite Hflight, filter_cons. simpl. case_decide; [reflexivity | congruence].
  - intros st2. destruct (startServer_rejected_state P e st2) as (Hr & Hm & Hw).
    split; [exact Hr|]. split; [exact Hm|]. split; [exact Hw|].
    unfold serving. rewrite Hm. split; [apply lookup_delete_eq | reflexivity].
  - rewrite E3. split; [reflexivity|]. split; [reflexivity|].
    split; [exact Hserve|]. split; [exact Hflight | exact Hnone].
  - destruct (startServer_state P st3) as (_ & _ & Es4 & _ & _ & Ec4 & _).
    assert (E4 : st4 = snd (startServer P st3)) by reflexivity.
    rewrite E4, Es4, Ec4. split; [apply lookup_insert_eq|].
    apply elem_of_app. right. apply elem_of_app. right. now apply list_elem_of_singleton.
Qed.

Lemma startServer_rejection_leaves_path_absent_witness :
  let st := Example.manager in
  let st3 := run [call_startServer "/p/"; start_rejected 0 "spawn failed"] st in
  mgr st3 = mgr st ∧ serving "/p/" st3 = [] ∧ in_flight "/p/" st3 = [].
Proof.
  intros st st3.
  destruct (startServer_rejection_leaves_path_absent "/p/" "spawn failed" st)
    as (_ & _ & (Hm & _ & Hs & Hf & _) & _).
  - apply new_ServerManager_consistent.
  - reflexivity.
  - reflexivity.
  - auto.
Defined.

(** ** Watched files *)

Section FilesChangedProperties.

Variable convert : FilesystemChange -> list FileEvent.






End FilesChangedProperties.


(** For a rename into the project from outside, the record pushed is the
    first one of the translation, the deletion of the old path. *)
Example rename_into_project :
  pushed_changes atomFileEventToLSFileEvents_spec (mgr Example.manager)
    Example.server0 (renamed "/p/new.txt" "/other/old.txt")
  = [Some (mkFileEvent "/other/old.txt" Deleted)].
Proof. reflexivity. Qed.

(** ** Listening and restarting *)

Lemma getServer_isStarted textEditor shouldStart st :
  _isStarted (mgr (snd (getServer textEditor shouldStart st))) = _isStarted (mgr st).
Proof.
  pose proof (getServer_cases textEditor shouldStart st) as H.
  destruct (determineProjectPath _ _); [|now rewrite H].
  destruct (List.find _ _); [now rewrite H|].
  destruct (_ !! _); [now rewrite H|].
  destruct (_ && _); now rewrite H.
Qed.

Lemma step_isStarted st e :
  _isStarted (mgr st) = false -> _isStarted (mgr (step st e)) = false.
Proof.
  intros Hs. unfold step. destruct (starts_nothing e) eqn:Hq.
  { now apply (quiet_isStarted _ _ (handle_quiet e Hq st)). }
  destruct e; try discriminate; simpl handle.
  - unfold detached. cbn [snd]. now rewrite getServer_isStarted.
  - exact Hs.
  - now apply (settle_start_preserves (fun st => _isStarted (mgr st) = false)).
  - now apply (settle_start_preserves (fun st => _isStarted (mgr st) = false)).
Qed.

Lemma run_isStarted events st :
  _isStarted (mgr st) = false -> _isStarted (mgr (run events st)) = false.
Proof.
  revert st. induction events as [|e events IH]; intros st Hs; [exact Hs|].
  simpl. now apply IH, step_isStarted.
Qed.

(** C8 (what the code does): nothing ever sets [_isStarted], so in every
    state of the manager [stopListening] does nothing, and
    [restartAllServers] does not suspend the observation of editors before
    it stops the servers: its first segment is that of [stopAllServers]. *)
Theorem stopListening_never_suspends
    startForEditor watched dirs onDidChangeFiles faults events :
  let st :=
    run events
      (new_ServerManager startForEditor watched
         (new_World dirs onDidChangeFiles faults)) in
  _isStarted (mgr st) = false ∧
  stopListening st = (Return tt, st) ∧
  restartAllServers st = stopAllServers st.
Proof.
  intros st.
  assert (Hs : _isStarted (mgr st) = false) by (apply run_isStarted; reflexivity).
  assert (Hstop : stopListening st = (Return tt, st)).
  { unfold stopListening, mbind, M_bind, get_mgr. now rewrite Hs. }
  split; [exact Hs|]. split; [exact Hstop|].
  unfold restartAllServers, mbind, M_bind. now rewrite Hstop.
Qed.

(** After [startListening], a restart keeps the three subscriptions alive
    through the stop phase and then subscribes three more times. *)
Example restartAllServers_keeps_listening :
  let st0 := step Example.manager call_startListening in
  let st1 := step st0 call_restartAllServers in
  let st2 := step st1 restartAllServers_resumes in
  subscriptions (world st0)
    = [(0, ObserveTextEditors); (1, OnDidChangePaths); (2, OnDidChangeFiles)] ∧
  subscriptions (world st1) = subscriptions (world st0) ∧
  subscriptions (world st2)
    = [(0, ObserveTextEditors); (1, OnDidChangePaths); (2, OnDidChangeFiles);
       (3, ObserveTextEditors); (4, OnDidChangePaths); (5, OnDidChangeFiles)].
Proof. repeat split. Qed.

(** [stopAllServers] maps [stopServer] over the registry while [stopServer]
    takes servers out of it: of two active servers, the second is never
    stopped and is still active when the restart is over. *)
Example stopAllServers_skips_a_server :
  let serverP := mkActiveServer 0 "/p/" 100 in
  let serverQ := mkActiveServer 1 "/q/" 101 in
  let st :=
    run [call_getServer (mkTextEditor 1 (Some "/p/a.txt")) true;
         call_getServer (mkTextEditor 2 (Some "/q/b.txt")) true;
         start_fulfilled 0 serverP; start_fulfilled 1 serverQ;
         handleTextEditor_resumes (mkTextEditor 1 (Some "/p/a.txt")) (Some serverP);
         handleTextEditor_resumes (mkTextEditor 2 (Some "/q/b.txt")) (Some serverQ)]
        (new_ServerManager Example.always Example.always
           (new_World ["/p"; "/q"] true Example.no_fault)) in
  let st' :=
    run [call_restartAllServers; shutdown_fulfilled serverP;
         restartAllServers_resumes] st in
  _activeServers (mgr st) = [serverP; serverQ] ∧
  awaitingShutdown (world (step st call_restartAllServers)) = [serverP] ∧
  _activeServers (mgr st') = [serverQ] ∧
  _editorToServer (mgr st') = ∅ ∧
  calls (world st') =
    [LoggerDebug (ServerStarting "/p/"); StartServer "/p/" 0;
     LoggerDebug (ServerStarting "/q/"); StartServer "/q/" 1;
     LoggerDebug (ServerStarted "/p/" 100); LoggerDebug (ServerStarted "/q/" 101);
     LoggerDebug (ServerStopping "/p/"); DisposableDispose serverP;
     ConnectionShutdown serverP; ConnectionExit serverP;
     ConnectionDispose serverP; ProcessKill serverP;
     LoggerDebug (ServerStopped "/p/" 100)].
Proof. repeat split. Qed.

(** ** The connection *)

Lemma connection_step_isConnected c e :
  LanguageClientConnection.isConnected (LanguageClientConnection.step c e) = LanguageClientConnection.isConnected c && negb (LanguageClientConnection.is_close e).
Proof. destruct e; simpl; now rewrite ?andb_true_r, ?andb_false_r. Qed.

Lemma connection_run_isConnected events c :
  LanguageClientConnection.isConnected (LanguageClientConnection.run events c)
  = LanguageClientConnection.isConnected c && negb (existsb LanguageClientConnection.is_close events).
Proof.
  revert c. induction events as [|e events IH]; intros c; simpl.
  - now rewrite andb_true_r.
  - unfold LanguageClientConnection.run in IH. rewrite IH, connection_step_isConnected.
    rewrite negb_orb. now rewrite andb_assoc.
Qed.

Lemma connection_never_reconnects events c :
  LanguageClientConnection.changes false true (LanguageClientConnection.history events c) = 0.
Proof.
  revert c. induction events as [|e events IH]; intros c; [reflexivity|].
  cbn [LanguageClientConnection.history]. specialize (IH (LanguageClientConnection.step c e)).
  destruct events as [|e' events]; cbn [LanguageClientConnection.history LanguageClientConnection.changes] in *.
  - rewrite connection_step_isConnected.
    destruct (LanguageClientConnection.isConnected c), (LanguageClientConnection.is_close e); reflexivity.
  - rewrite IH. rewrite connection_step_isConnected.
    destruct (LanguageClientConnection.isConnected c), (LanguageClientConnection.is_close e); reflexivity.
Qed.

Lemma connection_disconnects_once events c :
  LanguageClientConnection.changes true false (LanguageClientConnection.history events c)
  = if LanguageClientConnection.isConnected c && existsb LanguageClientConnection.is_close events then 1 else 0.
Proof.
  revert c. induction events as [|e events IH]; intros c.
  - cbn. now rewrite andb_false_r.
  - cbn [LanguageClientConnection.history existsb]. specialize (IH (LanguageClientConnection.step c e)).
    rewrite connection_step_isConnected in IH.
    destruct events as [|e' events]; cbn [LanguageClientConnection.history LanguageClientConnection.changes existsb] in *.
    + rewrite connection_step_isConnected.
      destruct (LanguageClientConnection.isConnected c), (LanguageClientConnection.is_close e); reflexivity.
    + rewrite IH. rewrite connection_step_isConnected.
      destruct (LanguageClientConnection.isConnected c), (LanguageClientConnection.is_close e), (LanguageClientConnection.is_close e'),
        (existsb LanguageClientConnection.is_close events); reflexivity.
Qed.

(** C9: a connection is connected when constructed; along any sequence of
    events [isConnected] is true exactly until the transport closes for the
    first time, it goes from true to false once if the transport closes and
    never otherwise, and it never goes from false to true.  At the closing
    that turns it false, every listener registered for ['close'] is called,
    after the warning is logged. *)
Theorem connection_closes_once events :
  let h := LanguageClientConnection.history events LanguageClientConnection.new in
  LanguageClientConnection.isConnected LanguageClientConnection.new = true ∧
  LanguageClientConnection.isConnected (LanguageClientConnection.run events LanguageClientConnection.new) = negb (existsb LanguageClientConnection.is_close events) ∧
  LanguageClientConnection.changes false true h = 0 ∧
  LanguageClientConnection.changes true false h = (if existsb LanguageClientConnection.is_close events then 1 else 0) ∧
  (forall before after,
      events = before ++ LanguageClientConnection.transport_closed :: after ->
      existsb LanguageClientConnection.is_close before = false ->
      let c := LanguageClientConnection.run before LanguageClientConnection.new in
      let c' := LanguageClientConnection.step c LanguageClientConnection.transport_closed in
      LanguageClientConnection.isConnected c = true ∧
      LanguageClientConnection.isConnected c' = false ∧
      LanguageClientConnection.outputs c' =
        LanguageClientConnection.outputs c ++
        [LanguageClientConnection.log_warn "The RPC connection closed unexpectedly"] ++
        map (LanguageClientConnection.listener_called "close")
            (map snd (filter (fun l => fst l = "close") (LanguageClientConnection.listeners c))) ∧
      forall listener,
        ("close", listener) ∈ LanguageClientConnection.listeners c ->
        LanguageClientConnection.listener_called "close" listener ∈ LanguageClientConnection.outputs c').
Proof.
  intros h. split; [reflexivity|]. split; [apply connection_run_isConnected|].
  split; [apply connection_never_reconnects|].
  split; [apply connection_disconnects_once|].
  intros before after _ Hbefore c c'.
  assert (Hc : LanguageClientConnection.isConnected c = true).
  { unfold c. rewrite connection_run_isConnected, Hbefore. reflexivity. }
  assert (Hout : LanguageClientConnection.outputs c' =
    LanguageClientConnection.outputs c ++
    [LanguageClientConnection.log_warn "The RPC connection closed unexpectedly"] ++
    map (LanguageClientConnection.listener_called "close")
        (map snd (filter (fun l => fst l = "close") (LanguageClientConnection.listeners c)))).
  { unfold c'. cbn. now rewrite <- app_assoc. }
  split; [exact Hc|]. split; [reflexivity|]. split; [exact Hout|].
  intros listener Hin. rewrite Hout.
  apply elem_of_app. right. apply elem_of_app. right.
  apply list_elem_of_In, in_map, in_map_iff. exists ("close", listener).
  split; [reflexivity|]. apply list_elem_of_In, list_elem_of_filter. auto.
Qed.

Lemma connection_closes_once_witness :
  let events :=
    [LanguageClientConnection.on "close" 7; LanguageClientConnection.send "initialize"; LanguageClientConnection.transport_closed;
     LanguageClientConnection.send "exit"; LanguageClientConnection.transport_closed] in
  LanguageClientConnection.history events LanguageClientConnection.new = [true; true; true; false; false; false] ∧
  LanguageClientConnection.listener_called "close" 7
    ∈ LanguageClientConnection.outputs (LanguageClientConnection.step (LanguageClientConnection.run [LanguageClientConnection.on "close" 7; LanguageClientConnection.send "initialize"] LanguageClientConnection.new)
                     LanguageClientConnection.transport_closed).
Proof.
  intros events. split; [reflexivity|].
  destruct (connection_closes_once events) as (_ & _ & _ & _ & H).
  destruct (H [LanguageClientConnection.on "close" 7; LanguageClientConnection.send "initialize"]
              [LanguageClientConnection.send "exit"; LanguageClientConnection.transport_closed] eq_refl eq_refl)
    as (_ & _ & _ & Hcalled).
  apply Hcalled. apply elem_of_cons. now left.
Defined.

(** ** Separator-terminated paths *)


